(** * seleniumuser: the interaction timing and polling engine of [User]

    A shallow embedding of the timing profile ([turbo]), the randomized
    delay ([chill]), the condition poller ([wait_until]) and the two
    randomized selection helpers ([click_elements], [get_click_list]) of
    [src/seleniumuser/seleniumuser.py], together with the properties the
    specification states about them.  The methods that type ([send_keys],
    [fill_next]), move between tabs and frames, and [solve_recaptcha_v3]
    are embedded over a [Session], with further properties read off the
    code.

    Conventions of the embedding:
    - Python numbers that measure seconds are rationals ([Q]); Python
      integers used as counts and indexes are [Z].  [max_wait], which the
      code only compares with, may also be one of the special floats.
    - The clock moves by the lengths the code asks [time.sleep] for and by
      what a polled condition takes.  Oversleeping and the time the driver
      takes are not modelled: the time on the clock is the time the code
      has asked to wait, which the time that really passes is never below.
    - A method is a computation [M A] over the [Machine]: the attributes of
      [self] and the part of the world the engine talks to (wall clock,
      random source, browser).  It returns a value, raises, or has not
      finished when the iteration budget of a [while] loop runs out.
    - The collaborators ([time], [random], the selenium driver) are modelled
      by their documented behaviour. *)

From Stdlib Require Import ZArith QArith Qround Lqa Lia String Ascii.
From stdpp Require Import base list strings.

Open Scope Z_scope.

(** ** Exceptions and outcomes *)

Inductive exn : Type :=
| TimeoutError            (* raised by wait_until *)
| ValueError              (* time.sleep(<0), random.randint on an empty range, random.sample *)
| IndexError              (* list assignment out of range *)
| AttributeError          (* a method called on None *)
| UnboundLocalError       (* a local read before assignment *)
| OtherError (name : string).   (* anything else a condition or the driver raises *)

Inductive outcome (A : Type) : Type :=
| Return (a : A)
| Raise (e : exn).
Arguments Return {A} a.
Arguments Raise {A} e.

(** ** The random source

    [random] draws from a stream of raw non-negative numbers; every theorem
    quantifies over the stream, so it holds for whatever generator backs
    the module. *)

Record Rng : Type := mkRng { tape : nat -> N; cursor : nat }.

Definition next_raw (g : Rng) : N * Rng :=
  (tape g (cursor g), {| tape := tape g; cursor := S (cursor g) |}).

(** ** Floats

    [max_wait] is a Python float that the code does nothing with but
    compare the elapsed time with it: it may be a number or one of the
    special values [float('inf')], [float('-inf')] and [float('nan')].  A
    number [q] is written for [Finite q]. *)

Inductive pyfloat : Type :=
| Finite (q : Q)
| Inf
| NegInf
| NaN.

Coercion Finite : Q >-> pyfloat.

Bind Scope Q_scope with pyfloat.

(** ** selenium's constants *)

Inductive By : Type := XPATH | ID | CLASS_NAME | NAME | CSS_SELECTOR.

(** [Keys.SPACE] is the private-use code point U+E00D, here in UTF-8. *)
Definition Keys_SPACE : string :=
  String (ascii_of_nat 238) (String (ascii_of_nat 128) (String (ascii_of_nat 141) EmptyString)).

(** ** The driver interface

    What the engine needs from the browser driver: looking an element up
    and clicking it.  Either call may raise, and clicking may change the
    page. *)

Class WebDriver : Type := {
  WebElement : Type;
  Browser : Type;
  find_element : By -> string -> Browser -> outcome WebElement;
  element_click : WebElement -> Browser -> outcome unit * Browser
}.

Section Engine.

Context `{WebDriver}.

(** ** The machine *)

Definition range : Type := (Q * Q)%type.

(** The attributes of [self] that the engine reads or writes. *)
Record User : Type := mkUser {
  after_key_wait : range;
  after_field_wait : range;
  after_click_wait : range;
  arrival_wait : range;
  one_key_at_a_time : bool;
  turbo_engaged : bool;
  locator_method : string;
  browser : Browser
}.

Record Machine : Type := mkMachine {
  self : User;
  clock : Q;                       (* what time.time() returns *)
  rng : Rng;                       (* the state of the random module *)
  clicked : list WebElement        (* elements clicked so far, oldest first *)
}.

Definition set_self (u : User) (m : Machine) : Machine :=
  {| self := u; clock := clock m; rng := rng m; clicked := clicked m |}.

Definition set_clock (t : Q) (m : Machine) : Machine :=
  {| self := self m; clock := t; rng := rng m; clicked := clicked m |}.

Definition set_rng (g : Rng) (m : Machine) : Machine :=
  {| self := self m; clock := clock m; rng := g; clicked := clicked m |}.

Definition set_browser (b : Browser) (u : User) : User :=
  {| after_key_wait := after_key_wait u; after_field_wait := after_field_wait u;
     after_click_wait := after_click_wait u; arrival_wait := arrival_wait u;
     one_key_at_a_time := one_key_at_a_time u; turbo_engaged := turbo_engaged u;
     locator_method := locator_method u; browser := b |}.

(** The timing profile: the four delay ranges. *)
Definition profile (u : User) : range * range * range * range :=
  (after_key_wait u, after_field_wait u, after_click_wait u, arrival_wait u).

(** ** Computations *)

(** [None]: a loop used up its iteration budget before the call finished. *)
Definition M (A : Type) : Type := Machine -> option (outcome A * Machine).

Definition ret {A} (a : A) : M A := fun m => Some (Return a, m).

Definition raise {A} (e : exn) : M A := fun m => Some (Raise e, m).

Definition bind {A B} (c : M A) (k : A -> M B) : M B :=
  fun m =>
    match c m with
    | Some (Return a, m1) => k a m1
    | Some (Raise e, m1) => Some (Raise e, m1)
    | None => None
    end.

(** [try: c  except: h]; a bare [except] catches every exception. *)
Definition try_except {A} (c : M A) (h : exn -> M A) : M A :=
  fun m =>
    match c m with
    | Some (Raise e, m1) => h e m1
    | r => r
    end.

Notation "'let*' x := c 'in' k" := (bind c (fun x => k))
  (at level 10, x name, c at level 200, k at level 200).

(** ** time *)

Definition Qgt_bool (x y : Q) : bool := negb (Qle_bool x y).

(** [elapsed > max_wait] on floats: nothing is greater than [inf],
    everything finite is greater than [-inf], and a comparison with [nan] is
    false. *)
Definition exceeds (elapsed : Q) (max_wait : pyfloat) : bool :=
  match max_wait with
  | Finite q => Qgt_bool elapsed q
  | NegInf => true
  | Inf | NaN => false
  end.

Definition time_time : M Q := fun m => Some (Return (clock m), m).

(** [time.sleep(d)] raises [ValueError] on a negative length. *)
Definition time_sleep (d : Q) : M unit :=
  fun m =>
    if Qgt_bool 0 d then Some (Raise ValueError, m)
    else Some (Return tt, set_clock (clock m + d)%Q m).

(** ** random *)

Definition draw : M N :=
  fun m => let (r, g) := next_raw (rng m) in Some (Return r, set_rng g m).

(** [random.random()]: a multiple of 2^-53 in [0, 1). *)
Definition random_random : M Q :=
  let* r := draw in ret (Qmake (Z.of_N (r mod 2 ^ 53)%N) (2 ^ 53)%positive).

(** [random.uniform(a, b)] is [a + (b - a) * random()]. *)
Definition random_uniform (a b : Q) : M Q :=
  let* u := random_random in ret (a + (b - a) * u)%Q.

(** [random.randint(a, b)]: an integer N with a <= N <= b. *)
Definition random_randint (a b : Z) : M Z :=
  let width := b - a + 1 in
  if width <=? 0 then raise ValueError
  else let* r := draw in ret (a + Z.of_N r mod width).

(** The selection loop of [random.sample]: the chosen entry is replaced by
    the last live entry of the pool, so no position is chosen twice. *)
Fixpoint sample_loop {A} (k live : nat) (pool : list A) : M (list A) :=
  match k with
  | O => ret []
  | S k' =>
      let* r := draw in
      let j := (N.to_nat r mod live)%nat in
      match pool !! j, pool !! (live - 1)%nat with
      | Some x, Some y =>
          let* rest := sample_loop k' (live - 1)%nat (<[j := y]> pool) in
          ret (x :: rest)
      | _, _ => raise IndexError
      end
  end.

(** [random.sample(population, k)]. *)
Definition random_sample {A} (population : list A) (k : Z) : M (list A) :=
  if (k <? 0) || (Z.of_nat (length population) <? k) then raise ValueError
  else sample_loop (Z.to_nat k) (length population) population.

(** ** The timing profile *)

(** [User.turbo] *)
Definition turbo (engage : bool) (u : User) : User :=
  if engage then
    {| after_key_wait := (0, 0)%Q;
       after_field_wait := (0, 0)%Q;
       after_click_wait := (0, 0)%Q;
       arrival_wait := (1, 1)%Q;
       one_key_at_a_time := false;
       turbo_engaged := true;
       locator_method := locator_method u;
       browser := browser u |}
  else
    {| after_key_wait := (0.1, 0.5)%Q;
       after_field_wait := (1, 2)%Q;
       after_click_wait := (0.25, 1.5)%Q;
       arrival_wait := (4, 10)%Q;
       one_key_at_a_time := true;
       turbo_engaged := false;
       locator_method := locator_method u;
       browser := browser u |}.

Definition do_turbo (engage : bool) : M unit :=
  fun m => Some (Return tt, set_self (turbo engage (self m)) m).

(** [User.chill] *)
Definition chill (min_max : range) : M unit :=
  let* d := random_uniform (fst min_max) (snd min_max) in time_sleep d.

(** ** Elements *)

Definition driver_find (how : By) (locator : string) : M WebElement :=
  fun m => Some (find_element how locator (browser (self m)), m).

Definition driver_click (element : WebElement) : M unit :=
  fun m =>
    let (r, b) := element_click element (browser (self m)) in
    match r with
    | Return _ =>
        Some (Return tt,
              {| self := set_browser b (self m); clock := clock m; rng := rng m;
                 clicked := clicked m ++ [element] |})
    | Raise e => Some (Raise e, set_self (set_browser b (self m)) m)
    end.

Definition attr {A} (field : User -> A) : M A :=
  fun m => Some (Return (field (self m)), m).

(** [User.find]; a locator method outside the five cases falls through
    the [match] and the method returns [None]. *)
Definition find (locator : string) : M (option WebElement) :=
  let* method := attr locator_method in
  if String.eqb method "xpath" then
    let* e := driver_find XPATH locator in ret (Some e)
  else if String.eqb method "id" then
    let* e := driver_find ID locator in ret (Some e)
  else if String.eqb method "className" then
    let* e := driver_find CLASS_NAME locator in ret (Some e)
  else if String.eqb method "name" then
    let* e := driver_find NAME locator in ret (Some e)
  else if String.eqb method "cssSelector" then
    let* e := driver_find CSS_SELECTOR locator in ret (Some e)
  else ret None.

(** [User.click] *)
Definition click (locator : string) : M WebElement :=
  let* element := find locator in
  match element with
  | None => raise AttributeError
  | Some e =>
      let* _ := driver_click e in
      let* wait := attr after_click_wait in
      let* _ := chill wait in
      ret e
  end.

(** The [for] loop of [click_elements]; [element] is unbound ([None])
    until the first click returns. *)
Fixpoint click_each (options : list string) (element : option WebElement)
  : M (option WebElement) :=
  match options with
  | [] => ret element
  | option :: rest => let* e := click option in click_each rest (Some e)
  end.

(** [User.click_elements]; [max_selections] is [None] when not given, and
    [not max_selections] also holds for 0. *)
Definition click_elements (locators : list string) (max_selections : option Z)
    (min_selections : Z) : M WebElement :=
  let max_selections :=
    match max_selections with
    | None => Z.of_nat (length locators)
    | Some n => if n =? 0 then Z.of_nat (length locators) else n
    end in
  let* k := random_randint min_selections max_selections in
  let* options := random_sample locators k in
  let* element := click_each options None in
  match element with
  | None => raise UnboundLocalError
  | Some e => ret e
  end.

(** ** The sparse choice vector *)

(** [l[index] = x] on a Python list. *)
Definition list_setitem {A} (l : list A) (index : Z) (x : A) : M (list A) :=
  let n := Z.of_nat (length l) in
  let i := if index <? 0 then index + n else index in
  if (i <? 0) || (n <=? i) then raise IndexError
  else ret (<[Z.to_nat i := x]> l).

(** [while index in selected_indexes: index = random.randint(0, num_options - 1)] *)
Fixpoint unused_index (fuel : nat) (num_options : Z) (selected_indexes : list Z)
    (index : Z) : M Z :=
  if bool_decide (index ∈ selected_indexes) then
    match fuel with
    | O => fun _ => None
    | S fuel' =>
        let* index' := random_randint 0 (num_options - 1) in
        unused_index fuel' num_options selected_indexes index'
    end
  else ret index.

(** The body of [for i in range(...)], [count] times. *)
Fixpoint choose (count fuel : nat) (num_options : Z) (click_list : list string)
    (selected_indexes : list Z) : M (list string) :=
  match count with
  | O => ret click_list
  | S count' =>
      let* index := random_randint 0 (num_options - 1) in
      let* index := unused_index fuel num_options selected_indexes index in
      let selected_indexes := selected_indexes ++ [index] in
      let* click_list := list_setitem click_list index Keys_SPACE in
      choose count' fuel num_options click_list selected_indexes
  end.

(** [User.get_click_list]; [fuel] bounds the iterations of each run of the
    inner [while] loop. *)
Definition get_click_list (fuel : nat) (num_options max_choices min_choices : Z)
  : M (list string) :=
  let click_list := replicate (Z.to_nat num_options) "skip"%string in
  let* count := random_randint min_choices max_choices in
  choose (Z.to_nat count) fuel num_options click_list [].

(** ** The condition poller *)

(** A condition is caller code: it returns a truth value or raises, and may
    change anything on the way (time passes, the page changes). *)
Definition PollCondition : Type := Machine -> outcome bool * Machine.

Definition call (condition : PollCondition) : M bool :=
  fun m => Some (condition m).

(** One pass through the body of [while True]; [true] stands for [break]. *)
Definition wait_pass (condition : PollCondition) (start_time : Q) (max_wait : pyfloat)
    (polling_interval : Q) : M bool :=
  try_except
    (let* c := call condition in
     if c then
       let* _ := time_sleep 1 in ret true
     else
       let* now := time_time in
       if exceeds (now - start_time) max_wait then raise TimeoutError
       else let* _ := time_sleep polling_interval in ret false)
    (fun _ =>
       let* now := time_time in
       if exceeds (now - start_time) max_wait then raise TimeoutError
       else let* _ := time_sleep polling_interval in ret false).

Fixpoint wait_loop (fuel : nat) (condition : PollCondition)
    (start_time : Q) (max_wait : pyfloat) (polling_interval : Q) : M unit :=
  match fuel with
  | O => fun _ => None
  | S fuel' =>
      let* done := wait_pass condition start_time max_wait polling_interval in
      if done then ret tt
      else wait_loop fuel' condition start_time max_wait polling_interval
  end.

(** [User.wait_until]; [fuel] bounds the passes through the loop. *)
Definition wait_until (fuel : nat) (condition : PollCondition)
    (max_wait : pyfloat) (polling_interval : Q) : M unit :=
  let* start_time := time_time in
  wait_loop fuel condition start_time max_wait polling_interval.

(** ** Vocabulary for the properties of the poller *)

(** The machine in which the next pass starts, when a pass that started in
    [m] ends in the polling sleep. *)
Definition next_pass (condition : PollCondition) (polling_interval : Q) (m : Machine)
  : Machine :=
  let m1 := snd (condition m) in set_clock (clock m1 + polling_interval)%Q m1.

(** The machine in which pass [n] starts (passes are counted from 0). *)
Fixpoint at_pass (condition : PollCondition) (polling_interval : Q) (n : nat)
    (m : Machine) : Machine :=
  match n with
  | O => m
  | S k => at_pass condition polling_interval k (next_pass condition polling_interval m)
  end.

(** The pass that starts in [m] ends in the polling sleep: the condition did
    not return true, the clock was within [max_wait], the sleep was accepted. *)
Definition retried (condition : PollCondition) (start_time max_wait polling_interval : Q)
    (m : Machine) : Prop :=
  fst (condition m) <> Return true /\
  (clock (snd (condition m)) - start_time <= max_wait)%Q /\
  (0 <= polling_interval)%Q.

(** The call started in [m] gets as far as pass [n]. *)
Definition reaches (condition : PollCondition) (max_wait polling_interval : Q)
    (m : Machine) (n : nat) : Prop :=
  forall i, (i < n)%nat ->
    retried condition (clock m) max_wait polling_interval
      (at_pass condition polling_interval i m).

(** A number of passes as a duration factor. *)
Definition Qnat (n : nat) : Q := inject_Z (Z.of_nat n).

(** The condition with every exception replaced by the answer false. *)
Definition swallowed (condition : PollCondition) : PollCondition :=
  fun m =>
    match condition m with
    | (Raise _, m1) => (Return false, m1)
    | r => r
    end.

(** ** Vocabulary for the other properties *)

(** The number [random.random()] returns next. *)
Definition unit_draw (g : Rng) : Q :=
  Qmake (Z.of_N (fst (next_raw g) mod 2 ^ 53)%N) (2 ^ 53)%positive.

(** The operations of the engine: the profile switch, the delay, the
    poller and the two selection helpers, with [find] and [click], on
    which the helpers rest. *)
Inductive Operation : Type :=
| Turbo (engage : bool)
| Chill (min_max : range)
| Find (locator : string)
| Click (locator : string)
| ClickElements (locators : list string) (max_selections : option Z) (min_selections : Z)
| GetClickList (num_options max_choices min_choices : Z)
| WaitUntil (condition : PollCondition) (max_wait polling_interval : Q).

Definition perform (fuel : nat) (op : Operation) : M unit :=
  match op with
  | Turbo engage => do_turbo engage
  | Chill min_max => chill min_max
  | Find locator => let* _ := find locator in ret tt
  | Click locator => let* _ := click locator in ret tt
  | ClickElements locators max_selections min_selections =>
      let* _ := click_elements locators max_selections min_selections in ret tt
  | GetClickList num_options max_choices min_choices =>
      let* _ := get_click_list fuel num_options max_choices min_choices in ret tt
  | WaitUntil condition max_wait polling_interval =>
      wait_until fuel condition max_wait polling_interval
  end.

(** A computation that leaves the timing profile as it found it. *)
Definition keeps_profile {A} (c : M A) : Prop :=
  forall m r m', c m = Some (r, m') -> profile (self m') = profile (self m).

(** The caller's condition does not itself switch the profile. *)
Definition conditions_keep_profile (op : Operation) : Prop :=
  match op with
  | WaitUntil condition _ _ => forall m, profile (self (snd (condition m))) = profile (self m)
  | _ => True
  end.

(** The raw number the random source yields next, and the machine after
    it has been consumed. *)
Definition raw (m : Machine) : N := fst (next_raw (rng m)).

Definition after_draw (m : Machine) : Machine := set_rng (snd (next_raw (rng m))) m.

(** [l] is the choice vector for the chosen indexes [selected]. *)
Definition sparse (num_options : Z) (selected : list Z) (l : list string) : Prop :=
  length l = Z.to_nat num_options /\
  NoDup selected /\
  (forall x, x ∈ selected -> 0 <= x < num_options) /\
  (forall i : nat, (i < length l)%nat ->
     l !! i = Some (if bool_decide (Z.of_nat i ∈ selected) then Keys_SPACE else "skip"%string)).

(** Among any [bound] consecutive raw draws every index below
    [num_options] turns up. *)
Definition fair (bound : nat) (num_options : Z) (t : nat -> N) : Prop :=
  forall (pos : nat) (x : Z), 0 <= x < num_options ->
    exists j, (j < bound)%nat /\ Z.of_N (t (pos + j)%nat) mod num_options = x.

(** The [By] that [find] uses for a locator method. *)
Definition strategy (method : string) : option By :=
  if String.eqb method "xpath" then Some XPATH
  else if String.eqb method "id" then Some ID
  else if String.eqb method "className" then Some CLASS_NAME
  else if String.eqb method "name" then Some NAME
  else if String.eqb method "cssSelector" then Some CSS_SELECTOR
  else None.

(** On every page that satisfies [present], the locator resolves to
    [element_of locator], clicking that element succeeds, and the page it
    leaves satisfies [present] again. *)
Definition clickable (how : By) (element_of : string -> WebElement)
    (present : Browser -> Prop) (locator : string) : Prop :=
  forall b : Browser,
    present b ->
    find_element how locator b = Return (element_of locator) /\
    fst (element_click (element_of locator) b) = Return tt /\
    present (snd (element_click (element_of locator) b)).

(** The machine is set up for clicking: the locator method is one of the
    five that [find] knows, the bounds of the wait after a click are not
    negative (as in both profiles), and the page satisfies [present]. *)
Definition ready (how : By) (present : Browser -> Prop) (m : Machine) : Prop :=
  strategy (locator_method (self m)) = Some how /\
  (0 <= fst (after_click_wait (self m)))%Q /\
  (0 <= snd (after_click_wait (self m)))%Q /\
  present (browser (self m)).

(** ** Vocabulary for the further properties *)

(** From [m] to [m'] only the random source has moved, and only forward. *)
Definition only_drew (m m' : Machine) : Prop :=
  self m' = self m /\ clock m' = clock m /\ clicked m' = clicked m /\
  tape (rng m') = tape (rng m) /\ (cursor (rng m) <= cursor (rng m'))%nat.

(** The maximum that [click_elements] works with. *)
Definition effective_max (locators : list string) (max_selections : option Z) : Z :=
  match max_selections with
  | None => Z.of_nat (length locators)
  | Some n => if n =? 0 then Z.of_nat (length locators) else n
  end.

End Engine.

(** ** Typing, tabs and frames

    The rest of the class keeps two more things in view: the index of the
    tab the user is on, and the keys sent to the page.  Text that is typed
    is a Python [str] that the code iterates over: a list of code points. *)

Definition pystr : Type := list N.

(** An ASCII literal as a [str]. *)
Definition literal (s : string) : pystr := map N_of_ascii (list_ascii_of_string s).

(** [Keys.TAB] and [Keys.ARROW_DOWN]: U+E004 and U+E015. *)
Definition Keys_TAB : pystr := [57348%N].

Definition Keys_ARROW_DOWN : pystr := [57365%N].

(** The locators of [solve_recaptcha_v3]; they hold double quotes. *)
Definition dq : string := String (ascii_of_nat 34) EmptyString.

Definition quoted (before inside after : string) : string :=
  String.append before (String.append dq (String.append inside (String.append dq after))).

Definition recaptcha_anchor : string := quoted "//*[@id=" "recaptcha-anchor" "]".

Definition recaptcha_audio_button : string := quoted "//*[@id=" "recaptcha-audio-button" "]".

Definition recaptcha_download_link : string :=
  quoted "//a[@class=" "rc-audiochallenge-tdownload-link" "]".

Definition recaptcha_audio_response : string := quoted "//*[@id=" "audio-response" "]".

Definition recaptcha_verify_button : string := quoted "//*[@id=" "recaptcha-verify-button" "]".

(** What these methods need from the driver and from voxscribe. *)
Class FormDriver `{WebDriver} : Type := {
  Handle : Type;
  ScriptValue : Type;
  element_send_keys : WebElement -> pystr -> Browser -> outcome unit * Browser;
  element_clear : WebElement -> Browser -> outcome unit * Browser;
  get_attribute : WebElement -> string -> Browser -> outcome (option pystr);
  active_element : Browser -> outcome WebElement;
  window_handles : Browser -> outcome (list Handle);
  switch_to_window : Handle -> Browser -> outcome unit * Browser;
  close_window : Browser -> outcome unit * Browser;
  switch_to_frame : option WebElement -> Browser -> outcome unit * Browser;
  switch_to_parent_frame : Browser -> outcome unit * Browser;
  execute_script : string -> pystr -> Browser -> outcome ScriptValue * Browser;
  get_text_from_url : option pystr -> string -> outcome pystr
}.

Section Desk.

Context `{FormDriver}.

Record Session : Type := mkSession {
  engine : Machine;
  tab_index : Z;                            (* self.tab_index *)
  typed : list (WebElement * pystr)         (* calls of element.send_keys, oldest first *)
}.

Definition set_engine (m : Machine) (s : Session) : Session :=
  {| engine := m; tab_index := tab_index s; typed := typed s |}.

Definition set_page (b : Browser) (s : Session) : Session :=
  set_engine (set_self (set_browser b (self (engine s))) (engine s)) s.

Definition page (s : Session) : Browser := browser (self (engine s)).

(** Computations over a session. *)
Definition Act (A : Type) : Type := Session -> option (outcome A * Session).

Definition retS {A} (a : A) : Act A := fun s => Some (Return a, s).

Definition raiseS {A} (e : exn) : Act A := fun s => Some (Raise e, s).

Definition bindS {A B} (c : Act A) (k : A -> Act B) : Act B :=
  fun s =>
    match c s with
    | Some (Return a, s1) => k a s1
    | Some (Raise e, s1) => Some (Raise e, s1)
    | None => None
    end.

Notation "'let+' x := c 'in' k" := (bindS c (fun x => k))
  (at level 10, x name, c at level 200, k at level 200).

(** A method of the engine, run inside the session. *)
Definition lift {A} (c : M A) : Act A :=
  fun s =>
    match c (engine s) with
    | Some (r, m) => Some (r, set_engine m s)
    | None => None
    end.

(** A driver call that may change the page, and one that only reads it. *)
Definition drive {A} (call : Browser -> outcome A * Browser) : Act A :=
  fun s => let (r, b) := call (page s) in Some (r, set_page b s).

Definition ask {A} (call : Browser -> outcome A) : Act A :=
  fun s => Some (call (page s), s).

(** [self.chill(self.<range>)] *)
Definition pause (wait : User -> range) : Act unit :=
  lift (bind (attr wait) chill).

(** [element.send_keys(keys)]; [element] may be [None]. *)
Definition send (element : option WebElement) (keys : pystr) : Act unit :=
  match element with
  | None => raiseS AttributeError
  | Some e =>
      fun s =>
        let (r, b) := element_send_keys e keys (page s) in
        match r with
        | Return _ =>
            Some (Return tt,
                  {| engine := engine (set_page b s); tab_index := tab_index s;
                     typed := typed s ++ [(e, keys)] |})
        | Raise x => Some (Raise x, set_page b s)
        end
  end.

(** [element.clear()] *)
Definition clear_element (element : option WebElement) : Act unit :=
  match element with
  | None => raiseS AttributeError
  | Some e => drive (element_clear e)
  end.

(** [for ch in str(data): element.send_keys(ch); self.chill(self.after_key_wait)] *)
Fixpoint type_keys (element : option WebElement) (data : pystr) : Act unit :=
  match data with
  | [] => retS tt
  | ch :: rest =>
      let+ _ := send element [ch] in
      let+ _ := pause after_key_wait in
      type_keys element rest
  end.

(** [User.send_keys]; without [click_first] the element comes from [find]
    and may be [None]. *)
Definition send_keys (locator : string) (data : pystr) (click_first clear_first : bool)
  : Act (option WebElement) :=
  let+ element :=
    (if click_first then let+ e := lift (click locator) in retS (Some e)
     else lift (find locator)) in
  let+ _ :=
    (if clear_first then
       let+ _ := clear_element element in pause after_click_wait
     else retS tt) in
  let+ one_key := lift (attr one_key_at_a_time) in
  let+ _ := (if one_key then type_keys element data else send element data) in
  let+ _ := pause after_field_wait in
  retS element.

(** An item of the data of [fill_next]: a string, or the pair
    ('downArrow', numberOfPresses) with a count or a pair of bounds. *)
Inductive Presses : Type :=
| Times (n : Z)
| Between (low high : Z).

Inductive Datum : Type :=
| Text (s : pystr)
| DownArrow (presses : Presses).

(** [for _ in range(times): element.send_keys(Keys.ARROW_DOWN); self.chill(...)] *)
Fixpoint press_down (element : WebElement) (times : nat) : Act unit :=
  match times with
  | O => retS tt
  | S n =>
      let+ _ := send (Some element) Keys_ARROW_DOWN in
      let+ _ := pause after_key_wait in
      press_down element n
  end.

(** The [if]/[elif]/[else] on one item; [datum[0]] of an empty string
    raises [IndexError]. *)
Definition fill_datum (element : WebElement) (datum : Datum) : Act unit :=
  match datum with
  | DownArrow presses =>
      let+ times :=
        match presses with
        | Between low high => lift (random_randint low high)
        | Times n => retS n
        end in
      press_down element (Z.to_nat times)
  | Text [] => raiseS IndexError
  | Text s =>
      if bool_decide (s = literal "skip") then pause after_key_wait
      else
        let+ turbo_on := lift (attr turbo_engaged) in
        if turbo_on then send (Some element) s
        else type_keys (Some element) s
  end.

(** The [for datum in data] loop of [fill_next]. *)
Fixpoint fill_each (data : list Datum) (element : WebElement) : Act WebElement :=
  match data with
  | [] => retS element
  | datum :: rest =>
      let+ _ := send (Some element) Keys_TAB in
      let+ element := ask active_element in
      let+ _ := pause after_key_wait in
      let+ _ := fill_datum element datum in
      let+ _ := pause after_field_wait in
      fill_each rest element
  end.

(** [User.fill_next] *)
Definition fill_next (data : list Datum) (start_element : option WebElement)
  : Act WebElement :=
  let+ element :=
    match start_element with
    | None => ask active_element
    | Some e => retS e
    end in
  fill_each data element.

(** [l[index]] on a Python list. *)
Definition list_getitem {A} (l : list A) (index : Z) : outcome A :=
  let n := Z.of_nat (length l) in
  let i := if index <? 0 then index + n else index in
  if (i <? 0) || (n <=? i) then Raise IndexError
  else match l !! Z.to_nat i with
       | Some x => Return x
       | None => Raise IndexError
       end.

(** [User.switch_to_tab] *)
Definition switch_to_tab (index : Z) : Act unit :=
  let+ handles := ask window_handles in
  match list_getitem handles index with
  | Raise e => raiseS e
  | Return handle =>
      let+ _ := drive (switch_to_window handle) in
      fun s => Some (Return tt, {| engine := engine s; tab_index := index; typed := typed s |})
  end.

(** [User.script] *)
Definition script (code : string) (args : pystr) : Act ScriptValue :=
  drive (execute_script code args).

(** [User.open_tab] *)
Definition open_tab (url : pystr) (switch : bool) : Act unit :=
  let+ _ := script "window.open(arguments[0]);" url in
  if switch then
    let+ current := (fun s => Some (Return (tab_index s), s)) in
    switch_to_tab (current + 1)
  else retS tt.

(** [User.close_tab] *)
Definition close_tab (index : Z) : Act unit :=
  let+ _ := switch_to_tab index in
  let+ _ := drive close_window in
  switch_to_tab 0.

(** [User.switch_to_iframe] and [User.switch_to_parent_frame] *)
Definition switch_to_iframe (locator : string) : Act unit :=
  let+ element := lift (find locator) in
  drive (switch_to_frame element).

Definition to_parent_frame : Act unit := drive switch_to_parent_frame.

Definition set_locator (method : string) (u : User) : User :=
  {| after_key_wait := after_key_wait u; after_field_wait := after_field_wait u;
     after_click_wait := after_click_wait u; arrival_wait := arrival_wait u;
     one_key_at_a_time := one_key_at_a_time u; turbo_engaged := turbo_engaged u;
     locator_method := method; browser := browser u |}.

(** [self.locator_method = method] *)
Definition set_locator_method (method : string) : Act unit :=
  fun s =>
    Some (Return tt,
          set_engine (set_self (set_locator method (self (engine s))) (engine s)) s).

(** [except Exception] lets the exceptions that derive from [BaseException]
    alone pass. *)
Definition is_Exception (e : exn) : bool :=
  match e with
  | OtherError name =>
      negb (bool_decide (name ∈ ["KeyboardInterrupt"; "SystemExit"; "GeneratorExit"]%string))
  | _ => true
  end.

(** [try: c  except Exception as e: h e] *)
Definition try_exceptS {A} (c : Act A) (h : exn -> Act A) : Act A :=
  fun s =>
    match c s with
    | Some (Raise e, s1) => if is_Exception e then h e s1 else Some (Raise e, s1)
    | r => r
    end.

(** [try: c  finally: f]: [f] runs however [c] ends, and an exception of
    [f] replaces the outcome of [c]. *)
Definition try_finally {A} (c : Act A) (f : Act unit) : Act A :=
  fun s =>
    match c s with
    | Some (r, s1) =>
        match f s1 with
        | Some (Return _, s2) => Some (r, s2)
        | Some (Raise e, s2) => Some (Raise e, s2)
        | None => None
        end
    | None => None
    end.

(** [raise Exception("Could not solve captcha")] *)
Definition captcha_failed : exn := OtherError "Exception: Could not solve captcha".

(** [element.get_attribute(name)]; [element] may be [None]. *)
Definition attribute_of (element : option WebElement) (name : string) : Act (option pystr) :=
  match element with
  | None => raiseS AttributeError
  | Some e => ask (get_attribute e name)
  end.

(** [User.solve_recaptcha_v3]; [outer_iframe_xpath] may be [None], and the
    empty string is as good as [None]. *)
Definition solve_recaptcha_v3 (outer_iframe_xpath : option string)
    (inner_iframe_xpath : string) : Act unit :=
  let+ saved := lift (attr locator_method) in
  let+ _ := set_locator_method "xpath" in
  try_finally
    (try_exceptS
       (let+ _ :=
          match outer_iframe_xpath with
          | None | Some EmptyString => retS tt
          | Some outer =>
              let+ _ := switch_to_iframe outer in
              let+ _ := lift (click recaptcha_anchor) in
              to_parent_frame
          end in
        let+ _ := switch_to_iframe inner_iframe_xpath in
        let+ _ := lift (click recaptcha_audio_button) in
        let+ link := lift (find recaptcha_download_link) in
        let+ mp3_url := attribute_of link "href" in
        let+ text := (fun s => Some (get_text_from_url mp3_url ".mp3", s)) in
        let+ _ := send_keys recaptcha_audio_response text true false in
        let+ _ := lift (click recaptcha_verify_button) in
        retS tt)
       (fun _ => raiseS captcha_failed))
    (let+ _ := to_parent_frame in set_locator_method saved).

(** ** Vocabulary for the properties of typing, tabs and frames *)

(** The text of a stretch of the key log. *)
Definition keys_of (chunks : list (WebElement * pystr)) : pystr :=
  concat (map snd chunks).

(** From [s] to [s'] the attributes of [self] are the same but for the page. *)
Definition settings_kept (s s' : Session) : Prop :=
  exists b, self (engine s') = set_browser b (self (engine s)).

(** The keys [fill_next] sends for an item: a TAB, then the text (nothing
    for 'skip'), or [presses] times the down arrow. *)
Definition item_keys (datum : Datum) (presses : nat) : pystr :=
  Keys_TAB ++
  match datum with
  | Text t => if bool_decide (t = literal "skip") then [] else t
  | DownArrow _ => concat (replicate presses Keys_ARROW_DOWN)
  end.

(** The call [c] made in [s] ends, normally or by raising, and [post]
    holds of how it ends and of the session it leaves. *)
Definition ends {A} (c : Act A) (s : Session) (post : outcome A -> Session -> Prop)
  : Prop :=
  exists r s', c s = Some (r, s') /\ post r s'.

(** From [s] to [s'] the calls of [send_keys] in [chunks] were made, the
    user stayed on the same tab, and the attributes of [self] are the same
    but for the page. *)
Definition sent (s s' : Session) (chunks : list (WebElement * pystr)) : Prop :=
  typed s' = typed s ++ chunks /\ tab_index s' = tab_index s /\ settings_kept s s'.

(** From [s] to [s'] the clock has moved on by at least [low] seconds. *)
Definition waited (s s' : Session) (low : Q) : Prop :=
  (clock (engine s) + low <= clock (engine s'))%Q.

(** A range that [chill] accepts, with its bounds in order. *)
Definition ordered (wait : range) : Prop :=
  (0 <= fst wait)%Q /\ (fst wait <= snd wait)%Q.

(** The number of waits of [after_click_wait] in a call of [send_keys]. *)
Definition click_waits (click_first clear_first : bool) : Q :=
  ((if click_first then 1 else 0) + (if clear_first then 1 else 0))%Q.

(** The number of presses an item allows. *)
Definition presses_allowed (datum : Datum) (presses : nat) : Prop :=
  match datum with
  | Text _ => presses = O
  | DownArrow (Times n) => presses = Z.to_nat n
  | DownArrow (Between low high) =>
      exists n, low <= n <= high /\ presses = Z.to_nat n
  end.

End Desk.

(** ** Machines and conditions to run the engine on *)

(** A driver whose page is the list of locators present on it: an element
    is its locator, and clicking always succeeds. *)
#[export] Instance page_driver : WebDriver := {|
  WebElement := string;
  Browser := list string;
  find_element _ locator page :=
    if bool_decide (locator ∈ page) then Return locator
    else Raise (OtherError "NoSuchElementException");
  element_click _ page := (Return tt, page)
|}.

(** The random source that yields start, start + 1, ... *)
Definition counting (start : nat) : Rng :=
  {| tape := fun i => N.of_nat i; cursor := start |}.

(** The attributes right after [__init__], which calls [self.turbo()]. *)
Definition fresh_user (page : list string) : User :=
  turbo true
    {| after_key_wait := (0, 0)%Q; after_field_wait := (0, 0)%Q;
       after_click_wait := (0, 0)%Q; arrival_wait := (0, 0)%Q;
       one_key_at_a_time := false; turbo_engaged := false;
       locator_method := "xpath"; browser := page |}.

Definition boot (page : list string) (g : Rng) : Machine :=
  {| self := fresh_user page; clock := 0; rng := g; clicked := [] |}.

(** [lambda: b], taking [d] seconds to evaluate. *)
Definition answers (d : Q) (b : bool) : @PollCondition page_driver :=
  fun m => (Return b, set_clock (clock m + d)%Q m).

(** A condition that raises until [ready] seconds on the clock. *)
Definition raises_until (ready : Q) : @PollCondition page_driver :=
  fun m =>
    if Qgt_bool ready (clock m)
    then (Raise (OtherError "StaleElementReferenceException"), m)
    else (Return true, m).

(** A form: its fields in tab order, the index of the field that has the
    focus, and the open windows with the one the driver is on. *)
Record Form : Type := mkForm {
  fields : list string;
  focus : nat;
  windows : list nat;
  current : nat
}.

Definition form_find (locator : string) (d : Form) : outcome string :=
  if bool_decide (locator ∈ fields d) then Return locator
  else Raise (OtherError "NoSuchElementException").

Definition form_driver : WebDriver := {|
  WebElement := string;
  Browser := Form;
  find_element _ locator d := form_find locator d;
  element_click _ d := (Return tt, d)
|}.

(** A TAB moves the focus to the next field. *)
Definition form_send_keys (keys : pystr) (d : Form) : outcome unit * Form :=
  (Return tt,
   if bool_decide (keys = Keys_TAB)
   then {| fields := fields d; focus := S (focus d); windows := windows d;
           current := current d |}
   else d).

Definition form_active_element (d : Form) : outcome string :=
  match fields d !! focus d with
  | Some field => Return field
  | None => Return "//body"%string
  end.

Definition form_switch_to_window (handle : nat) (d : Form) : outcome unit * Form :=
  if bool_decide (handle ∈ windows d)
  then (Return tt, {| fields := fields d; focus := focus d; windows := windows d;
                      current := handle |})
  else (Raise (OtherError "NoSuchWindowException"), d).

Definition form_close_window (d : Form) : outcome unit * Form :=
  (Return tt, {| fields := fields d; focus := focus d;
                 windows := filter (fun handle => handle <> current d) (windows d);
                 current := current d |}).

(** [window.open] adds a window. *)
Definition form_execute_script (d : Form) : outcome unit * Form :=
  (Return tt, {| fields := fields d; focus := focus d;
                 windows := windows d ++ [length (windows d)]; current := current d |}).

#[export] Instance form_keys : @FormDriver form_driver :=
  @Build_FormDriver form_driver nat unit
    (fun _ keys d => form_send_keys keys d)
    (fun _ d => (Return tt, d))
    (fun _ _ _ => Return (Some (literal "https://example.test/audio.mp3")))
    form_active_element
    (fun d => Return (windows d))
    form_switch_to_window
    form_close_window
    (fun _ d => (Return tt, d))
    (fun d => (Return tt, d))
    (fun _ _ d => form_execute_script d)
    (fun _ _ => Return (literal "seven four")).

(** A session on a form with three fields and two tabs, in either profile. *)
Definition form_user : @User form_driver :=
  @mkUser form_driver (0, 0)%Q (0, 0)%Q (0, 0)%Q (0, 0)%Q false false "id"
    {| fields := ["first"; "last"; "email"]%string; focus := O;
       windows := [O; 1%nat]; current := O |}.

Definition at_form (engage : bool) (g : Rng) : @Session form_driver :=
  @mkSession form_driver
    (@mkMachine form_driver (turbo engage form_user) 0%Q g []) 0 [].

(** * Properties *)

Section Polling.

Context `{WebDriver}.

Implicit Types (m : Machine) (condition : PollCondition) (max_wait : Q).

Lemma Qgt_bool_true x y : Qgt_bool x y = true <-> (y < x)%Q.
Proof.
  unfold Qgt_bool. rewrite negb_true_iff, <- not_true_iff_false, Qle_bool_iff.
  split; [apply Qnot_le_lt | apply Qlt_not_le].
Qed.

Lemma Qgt_bool_false x y : Qgt_bool x y = false <-> (x <= y)%Q.
Proof.
  unfold Qgt_bool. rewrite negb_false_iff. apply Qle_bool_iff.
Qed.

(** One pass of the loop, with the [try]/[except] resolved: a true
    evaluation settles and returns without looking at the clock; any other
    evaluation is followed by the comparison with [max_wait]. *)
Lemma wait_loop_pass fuel condition start_time max_wait polling_interval m :
  wait_loop (S fuel) condition start_time max_wait polling_interval m =
    match condition m with
    | (Return true, m1) => Some (Return tt, set_clock (clock m1 + 1)%Q m1)
    | (_, m1) =>
        if Qgt_bool (clock m1 - start_time) max_wait
        then Some (Raise TimeoutError, m1)
        else if Qgt_bool 0 polling_interval then Some (Raise ValueError, m1)
        else wait_loop fuel condition start_time max_wait polling_interval
               (set_clock (clock m1 + polling_interval)%Q m1)
    end.
Proof.
  cbn [wait_loop]. unfold bind at 1, wait_pass, try_except, bind, call, time_time.
  destruct (condition m) as [[[|]|e] m1]; cbn.
  - reflexivity.
  - destruct (Qgt_bool (clock m1 - start_time) max_wait) eqn:Hlate; cbn.
    + rewrite Hlate. reflexivity.
    + unfold time_sleep. destruct (Qgt_bool 0 polling_interval) eqn:Hneg; cbn.
      * rewrite Hlate. cbn. now rewrite ?Hneg.
      * reflexivity.
  - destruct (Qgt_bool (clock m1 - start_time) max_wait) eqn:Hlate; cbn.
    + reflexivity.
    + unfold time_sleep. destruct (Qgt_bool 0 polling_interval) eqn:Hneg; cbn; reflexivity.
Qed.

Lemma wait_until_unfold fuel condition max_wait polling_interval m :
  wait_until fuel condition max_wait polling_interval m =
  wait_loop fuel condition (clock m) max_wait polling_interval m.
Proof. reflexivity. Qed.

Lemma wait_loop_retry fuel condition start_time max_wait polling_interval m :
  retried condition start_time max_wait polling_interval m ->
  wait_loop (S fuel) condition start_time max_wait polling_interval m =
  wait_loop fuel condition start_time max_wait polling_interval
    (next_pass condition polling_interval m).
Proof.
  intros (Hnot & Hin & Hpos). rewrite wait_loop_pass. unfold next_pass.
  destruct (condition m) as [o m1]; cbn in *.
  apply Qgt_bool_false in Hin, Hpos. rewrite Hin, Hpos.
  destruct o as [[|]|e]; [contradiction | reflexivity | reflexivity].
Qed.

Lemma wait_loop_at_pass n : forall fuel condition start_time max_wait polling_interval m,
  (forall i, (i < n)%nat ->
     retried condition start_time max_wait polling_interval
       (at_pass condition polling_interval i m)) ->
  wait_loop (n + fuel) condition start_time max_wait polling_interval m =
  wait_loop fuel condition start_time max_wait polling_interval
    (at_pass condition polling_interval n m).
Proof.
  induction n as [|n IH]; intros fuel condition start_time max_wait polling_interval m Hall.
  - reflexivity.
  - change (S n + fuel)%nat with (S (n + fuel)).
    rewrite wait_loop_retry by (apply (Hall O); lia).
    rewrite IH; [reflexivity|].
    intros i Hi. apply (Hall (S i)). lia.
Qed.

Lemma wait_until_at_pass n fuel condition max_wait polling_interval m :
  reaches condition max_wait polling_interval m n ->
  wait_until (n + fuel) condition max_wait polling_interval m =
  wait_loop fuel condition (clock m) max_wait polling_interval
    (at_pass condition polling_interval n m).
Proof. intros Hr. rewrite wait_until_unfold. now apply wait_loop_at_pass. Qed.

(** What a finished loop tells about how it finished. *)
Lemma wait_loop_inv fuel : forall condition start_time max_wait polling_interval m r m',
  wait_loop fuel condition start_time max_wait polling_interval m = Some (r, m') ->
  match r with
  | Return _ =>
      exists m0 m1, condition m0 = (Return true, m1) /\ m' = set_clock (clock m1 + 1)%Q m1
  | Raise TimeoutError =>
      (max_wait < clock m' - start_time)%Q /\
      exists m0 o, condition m0 = (o, m') /\ o <> Return true
  | Raise ValueError => (polling_interval < 0)%Q
  | Raise _ => False
  end.
Proof.
  induction fuel as [|fuel IH]; intros condition start_time max_wait polling_interval m r m' Hrun.
  - discriminate.
  - rewrite wait_loop_pass in Hrun.
    destruct (condition m) as [o m1] eqn:Hc.
    assert (Hrest :
      (if Qgt_bool (clock m1 - start_time) max_wait then Some (Raise TimeoutError, m1)
       else if Qgt_bool 0 polling_interval then Some (Raise ValueError, m1)
       else wait_loop fuel condition start_time max_wait polling_interval
              (set_clock (clock m1 + polling_interval)%Q m1)) = Some (r, m') ->
      o <> Return true ->
      match r with
      | Return _ =>
          exists m0 m2, condition m0 = (Return true, m2) /\ m' = set_clock (clock m2 + 1)%Q m2
      | Raise TimeoutError =>
          (max_wait < clock m' - start_time)%Q /\
          exists m0 o', condition m0 = (o', m') /\ o' <> Return true
      | Raise ValueError => (polling_interval < 0)%Q
      | Raise _ => False
      end).
    { intros Hrest Ho.
      destruct (Qgt_bool (clock m1 - start_time) max_wait) eqn:Hlate.
      - injection Hrest as <- <-. apply Qgt_bool_true in Hlate. eauto.
      - destruct (Qgt_bool 0 polling_interval) eqn:Hneg.
        + injection Hrest as <- <-. now apply Qgt_bool_true in Hneg.
        + eapply IH, Hrest. }
    destruct o as [[|]|e].
    + injection Hrun as <- <-. eauto.
    + apply Hrest; [exact Hrun | discriminate].
    + apply Hrest; [exact Hrun | discriminate].
Qed.

Lemma wait_loop_swallowed fuel : forall condition start_time max_wait polling_interval m,
  wait_loop fuel condition start_time max_wait polling_interval m =
  wait_loop fuel (swallowed condition) start_time max_wait polling_interval m.
Proof.
  induction fuel as [|fuel IH]; intros condition start_time max_wait polling_interval m.
  - reflexivity.
  - rewrite !wait_loop_pass. unfold swallowed at 1.
    destruct (condition m) as [[[|]|e] m1]; try reflexivity; now rewrite IH.
Qed.

Lemma Qnat_S n : (Qnat (S n) == Qnat n + 1)%Q.
Proof. unfold Qnat. rewrite Nat2Z.inj_succ, <- Z.add_1_r, inject_Z_plus. reflexivity. Qed.

Lemma Qnat_above (x delta : Q) : (0 < delta)%Q -> exists n, (x < Qnat n * delta)%Q.
Proof.
  intros Hd. exists (Z.to_nat (Z.max 0 (Qfloor (x / delta) + 1))).
  unfold Qnat. rewrite Z2Nat.id by lia.
  assert (Hfl : (x / delta < inject_Z (Z.max 0 (Qfloor (x / delta) + 1)))%Q).
  { eapply Qlt_le_trans; [apply Qlt_floor|].
    rewrite <- Zle_Qle. lia. }
  assert (Hx : (x == x / delta * delta)%Q) by (field; lra).
  rewrite Hx at 1. now apply Qmult_lt_r.
Qed.

(** The same pass for whatever float [max_wait] is. *)
Lemma wait_loop_pass_float fuel condition start_time (max_wait : pyfloat)
    polling_interval m :
  wait_loop (S fuel) condition start_time max_wait polling_interval m =
    match condition m with
    | (Return true, m1) => Some (Return tt, set_clock (clock m1 + 1)%Q m1)
    | (_, m1) =>
        if exceeds (clock m1 - start_time) max_wait
        then Some (Raise TimeoutError, m1)
        else if Qgt_bool 0 polling_interval then Some (Raise ValueError, m1)
        else wait_loop fuel condition start_time max_wait polling_interval
               (set_clock (clock m1 + polling_interval)%Q m1)
    end.
Proof.
  cbn [wait_loop]. unfold bind at 1, wait_pass, try_except, bind, call, time_time.
  destruct (condition m) as [[[|]|e] m1]; cbn.
  - reflexivity.
  - destruct (exceeds (clock m1 - start_time) max_wait) eqn:Hlate; cbn.
    + rewrite Hlate. reflexivity.
    + unfold time_sleep. destruct (Qgt_bool 0 polling_interval) eqn:Hneg; cbn.
      * rewrite Hlate. cbn. now rewrite ?Hneg.
      * reflexivity.
  - destruct (exceeds (clock m1 - start_time) max_wait) eqn:Hlate; cbn.
    + reflexivity.
    + unfold time_sleep. destruct (Qgt_bool 0 polling_interval) eqn:Hneg; cbn; reflexivity.
Qed.

(** With a polling interval that [time.sleep] accepts, a loop that ends
    ends in one of two ways. *)
Lemma wait_loop_two_ends fuel : forall condition start_time (max_wait : pyfloat)
    polling_interval m r m',
  (0 <= polling_interval)%Q ->
  wait_loop fuel condition start_time max_wait polling_interval m = Some (r, m') ->
  r = Return tt \/ r = Raise TimeoutError.
Proof.
  induction fuel as [|fuel IH];
    intros condition start_time max_wait polling_interval m r m' Hpos Hrun;
    [discriminate|].
  rewrite wait_loop_pass_float in Hrun. apply Qgt_bool_false in Hpos.
  destruct (condition m) as [o m1].
  assert (Hrest :
    (if exceeds (clock m1 - start_time) max_wait then Some (Raise TimeoutError, m1)
     else if Qgt_bool 0 polling_interval then Some (Raise ValueError, m1)
     else wait_loop fuel condition start_time max_wait polling_interval
            (set_clock (clock m1 + polling_interval)%Q m1)) = Some (r, m') ->
    r = Return tt \/ r = Raise TimeoutError).
  { destruct (exceeds (clock m1 - start_time) max_wait); [intros [= <- <-]; now right|].
    rewrite Hpos. apply IH. now apply Qgt_bool_false. }
  destruct o as [[|]|e]; [|now apply Hrest..].
  injection Hrun as <- <-. now left.
Qed.

(** A limit of [inf] or [nan] is never exceeded: a condition that never
    returns true is polled for ever. *)
Lemma wait_loop_never_gives_up fuel : forall condition start_time (max_wait : pyfloat)
    polling_interval m,
  max_wait = Inf \/ max_wait = NaN ->
  (0 <= polling_interval)%Q ->
  (forall m0, fst (condition m0) <> Return true) ->
  wait_loop fuel condition start_time max_wait polling_interval m = None.
Proof.
  induction fuel as [|fuel IH];
    intros condition start_time max_wait polling_interval m Hlimit Hpos Hnever;
    [reflexivity|].
  rewrite wait_loop_pass_float. pose proof (Hnever m) as Hnot.
  destruct (condition m) as [o m1]; cbn [fst] in Hnot.
  assert (Hin : exceeds (clock m1 - start_time) max_wait = false)
    by (destruct Hlimit as [-> | ->]; reflexivity).
  rewrite Hin. pose proof Hpos as Hsleep. apply Qgt_bool_false in Hsleep. rewrite Hsleep.
  destruct o as [[|]|e]; [contradiction | now apply IH..].
Qed.

Section Finishing.

Variables (condition : PollCondition) (start_time max_wait polling_interval delta : Q).
Hypothesis interval_ok : (0 <= polling_interval)%Q.
Hypothesis delta_pos : (0 < delta)%Q.
Hypothesis clock_forward : forall m, (clock m <= clock (snd (condition m)))%Q.
Hypothesis pass_takes : forall m,
  (clock m + delta <= clock (snd (condition m)) + polling_interval)%Q.

(** When the time left is below [n] passes' worth, the loop is over within
    [n + 1] passes: it has returned, or raised [TimeoutError], which is what
    it does when the condition is never true. *)
Lemma wait_loop_finishes n : forall m,
  (max_wait - (clock m - start_time) < Qnat n * delta)%Q ->
  exists r m',
    (forall extra,
       wait_loop (S n + extra) condition start_time max_wait polling_interval m
       = Some (r, m')) /\
    (r = Return tt \/ r = Raise TimeoutError) /\
    ((forall m0, fst (condition m0) <> Return true) -> r = Raise TimeoutError).
Proof.
  induction n as [|n IH]; intros m Hm.
  - pose proof (clock_forward m) as Hfw.
    destruct (condition m) as [o m1] eqn:Hc; cbn [snd] in Hfw.
    assert (Hlate : Qgt_bool (clock m1 - start_time) max_wait = true).
    { apply Qgt_bool_true. change (Qnat 0) with 0%Q in Hm. lra. }
    destruct o as [[|]|e].
    + exists (Return tt), (set_clock (clock m1 + 1)%Q m1). split; [|split].
      * intros extra. cbn [Nat.add]. now rewrite wait_loop_pass, Hc.
      * now left.
      * intros Hnever. specialize (Hnever m). rewrite Hc in Hnever. now contradiction Hnever.
    + exists (Raise TimeoutError), m1. split; [|split; [now right | reflexivity]].
      intros extra. cbn [Nat.add]. now rewrite wait_loop_pass, Hc, Hlate.
    + exists (Raise TimeoutError), m1. split; [|split; [now right | reflexivity]].
      intros extra. cbn [Nat.add]. now rewrite wait_loop_pass, Hc, Hlate.
  - pose proof (clock_forward m) as Hfw. pose proof (pass_takes m) as Htk.
    destruct (condition m) as [o m1] eqn:Hc; cbn [snd] in Hfw, Htk.
    assert (Htrue : o = Return true ->
              exists r m',
                (forall extra,
                   wait_loop (S (S n) + extra) condition start_time max_wait
                     polling_interval m = Some (r, m')) /\
                (r = Return tt \/ r = Raise TimeoutError) /\
                ((forall m0, fst (condition m0) <> Return true) -> r = Raise TimeoutError)).
    { intros ->. exists (Return tt), (set_clock (clock m1 + 1)%Q m1). split; [|split].
      - intros extra. cbn [Nat.add]. now rewrite wait_loop_pass, Hc.
      - now left.
      - intros Hnever. specialize (Hnever m). rewrite Hc in Hnever.
        now contradiction Hnever. }
    assert (Hfalse : o <> Return true ->
              exists r m',
                (forall extra,
                   wait_loop (S (S n) + extra) condition start_time max_wait
                     polling_interval m = Some (r, m')) /\
                (r = Return tt \/ r = Raise TimeoutError) /\
                ((forall m0, fst (condition m0) <> Return true) -> r = Raise TimeoutError)).
    { intros Hnot.
      destruct (Qgt_bool (clock m1 - start_time) max_wait) eqn:Hlate.
      - exists (Raise TimeoutError), m1. split; [|split; [now right | reflexivity]].
        intros extra. cbn [Nat.add]. rewrite wait_loop_pass, Hc, Hlate.
        destruct o as [[|]|e]; [contradiction | reflexivity | reflexivity].
      - destruct (IH (next_pass condition polling_interval m)) as (r & m' & Hrun & Hends).
        { unfold next_pass. rewrite Hc. cbn [snd clock set_clock].
          rewrite Qnat_S in Hm. lra. }
        exists r, m'. split; [|exact Hends]. intros extra.
        change (S (S n) + extra)%nat with (S (S n + extra)).
        rewrite wait_loop_retry; [apply Hrun|].
        unfold retried. rewrite Hc. cbn [fst snd].
        split; [exact Hnot|]. split; [|exact interval_ok].
        now apply Qgt_bool_false. }
    destruct o as [[|]|e]; [now apply Htrue | apply Hfalse; discriminate..].
Qed.

Lemma wait_until_finishes m :
  exists bound r m',
    (forall fuel, (bound <= fuel)%nat ->
       wait_loop fuel condition start_time max_wait polling_interval m = Some (r, m')) /\
    (r = Return tt \/ r = Raise TimeoutError) /\
    ((forall m0, fst (condition m0) <> Return true) -> r = Raise TimeoutError).
Proof.
  destruct (Qnat_above (max_wait - (clock m - start_time)) delta delta_pos) as [n Hn].
  destruct (wait_loop_finishes n m Hn) as (r & m' & Hrun & Hends).
  exists (S n), r, m'. split; [|exact Hends]. intros fuel Hfuel.
  replace fuel with (S n + (fuel - S n))%nat by lia. apply Hrun.
Qed.

End Finishing.

(** C1 (as amended): [wait_until] compares the elapsed time with
    [max_wait] after each evaluation of the condition that does not return
    true (a false answer or an exception), and not after an evaluation that
    returns true.  In the pass a call reaches, a true evaluation returns
    normally whatever the clock says; any other evaluation that leaves the
    elapsed time above [max_wait] makes the call raise [TimeoutError]; and
    [TimeoutError] is raised in no other situation. *)
Theorem wait_until_timeout_check condition max_wait polling_interval m n fuel o m1 :
  reaches condition max_wait polling_interval m n ->
  condition (at_pass condition polling_interval n m) = (o, m1) ->
  (o = Return true ->
     wait_until (n + S fuel) condition max_wait polling_interval m
     = Some (Return tt, set_clock (clock m1 + 1)%Q m1)) /\
  (o <> Return true -> (max_wait < clock m1 - clock m)%Q ->
     wait_until (n + S fuel) condition max_wait polling_interval m
     = Some (Raise TimeoutError, m1)) /\
  (forall fuel' m',
     wait_until fuel' condition max_wait polling_interval m = Some (Raise TimeoutError, m') ->
     (max_wait < clock m' - clock m)%Q /\
     exists m0 o', condition m0 = (o', m') /\ o' <> Return true).
Proof.
  intros Hreach Hc. split; [|split].
  - intros ->. rewrite wait_until_at_pass, wait_loop_pass, Hc by assumption. reflexivity.
  - intros Ho Hlate. rewrite wait_until_at_pass, wait_loop_pass, Hc by assumption.
    apply Qgt_bool_true in Hlate. rewrite Hlate.
    destruct o as [[|]|e]; [contradiction | reflexivity | reflexivity].
  - intros fuel' m' Hrun. rewrite wait_until_unfold in Hrun.
    now apply wait_loop_inv in Hrun.
Qed.

(** C2 (as amended): an exception raised by the condition is handled
    exactly like the answer false: the call behaves as it does on the
    condition with its exceptions replaced by false, so the elapsed time is
    compared with [max_wait] and, when that is not exceeded, the loop sleeps
    [polling_interval] and retries.  In particular, when the condition
    raises on its first two calls and returns true on the third, the call
    returns normally, provided the polling interval is not negative and the
    elapsed time after each of the two failed calls is within [max_wait]. *)
Theorem wait_until_swallows condition max_wait polling_interval fuel m :
  wait_until fuel condition max_wait polling_interval m
  = wait_until fuel (swallowed condition) max_wait polling_interval m /\
  (forall e1 e2 m1 m2 m3,
     condition m = (Raise e1, m1) ->
     condition (set_clock (clock m1 + polling_interval)%Q m1) = (Raise e2, m2) ->
     condition (set_clock (clock m2 + polling_interval)%Q m2) = (Return true, m3) ->
     (0 <= polling_interval)%Q ->
     (clock m1 - clock m <= max_wait)%Q ->
     (clock m2 - clock m <= max_wait)%Q ->
     wait_until (3 + fuel) condition max_wait polling_interval m
     = Some (Return tt, set_clock (clock m3 + 1)%Q m3)).
Proof.
  split.
  - rewrite !wait_until_unfold. apply wait_loop_swallowed.
  - intros e1 e2 m1 m2 m3 H1 H2 H3 Hpos Hin1 Hin2.
    rewrite wait_until_unfold. change (3 + fuel)%nat with (S (S (S fuel))).
    apply Qgt_bool_false in Hpos, Hin1, Hin2.
    rewrite wait_loop_pass, H1, Hin1, Hpos.
    rewrite wait_loop_pass, H2, Hin2, Hpos.
    rewrite wait_loop_pass, H3. reflexivity.
Qed.

(** C3: a call in which the condition evaluates to true, in whatever pass
    the call has reached, sleeps the settle delay of one second and returns
    normally: the machine it leaves is the one the evaluation left, one
    second later.  A normal return happens in no other way. *)
Theorem wait_until_settles_on_true condition max_wait polling_interval m n fuel m1 :
  reaches condition max_wait polling_interval m n ->
  condition (at_pass condition polling_interval n m) = (Return true, m1) ->
  wait_until (n + S fuel) condition max_wait polling_interval m
  = Some (Return tt, set_clock (clock m1 + 1)%Q m1) /\
  (forall fuel' r m',
     wait_until fuel' condition max_wait polling_interval m = Some (Return r, m') ->
     exists m0 m2, condition m0 = (Return true, m2) /\ m' = set_clock (clock m2 + 1)%Q m2).
Proof.
  intros Hreach Hc. split.
  - rewrite wait_until_at_pass, wait_loop_pass, Hc by assumption. reflexivity.
  - intros fuel' r m' Hrun. rewrite wait_until_unfold in Hrun.
    now apply wait_loop_inv in Hrun.
Qed.

(** C4 (as amended): with a polling interval that [time.sleep] accepts, a
    call that ends returns normally or raises [TimeoutError], and nothing
    else.  When, besides, [max_wait] is neither [inf] nor [nan], the
    condition never sets the clock back and every pass takes at least some
    fixed positive time, every call does end, in one of these two ways, and
    by raising [TimeoutError] when the condition never returns true.  With
    [max_wait] [inf] or [nan] the limit is never exceeded: a condition that
    never returns true is polled for ever. *)
Theorem wait_until_terminal_states condition (max_wait : pyfloat) polling_interval m :
  (0 <= polling_interval)%Q ->
  (forall fuel r m',
     wait_until fuel condition max_wait polling_interval m = Some (r, m') ->
     r = Return tt \/ r = Raise TimeoutError) /\
  (forall delta,
     max_wait <> Inf -> max_wait <> NaN ->
     (0 < delta)%Q ->
     (forall m0, (clock m0 <= clock (snd (condition m0)))%Q) ->
     (forall m0, (clock m0 + delta <= clock (snd (condition m0)) + polling_interval)%Q) ->
     exists bound r m',
       (forall fuel, (bound <= fuel)%nat ->
          wait_until fuel condition max_wait polling_interval m = Some (r, m')) /\
       (r = Return tt \/ r = Raise TimeoutError) /\
       ((forall m0, fst (condition m0) <> Return true) -> r = Raise TimeoutError)) /\
  (max_wait = Inf \/ max_wait = NaN ->
   (forall m0, fst (condition m0) <> Return true) ->
   forall fuel, wait_until fuel condition max_wait polling_interval m = None).
Proof.
  intros Hpos. split; [|split].
  - intros fuel r m' Hrun. unfold wait_until, bind, time_time in Hrun.
    now apply wait_loop_two_ends in Hrun.
  - intros delta Hinf Hnan Hd Hfw Htakes.
    destruct max_wait as [limit| | |]; [| contradiction | | contradiction].
    + destruct (wait_until_finishes condition (clock m) limit polling_interval delta
                  Hpos Hd Hfw Htakes m) as (bound & r & m' & Hrun & Hends).
      exists bound, r, m'. split; [|exact Hends].
      intros fuel Hfuel. rewrite wait_until_unfold. now apply Hrun.
    + destruct (condition m) as [o m1] eqn:Hc.
      assert (Hlate : forall fuel,
                (1 <= fuel)%nat -> o <> Return true ->
                wait_until fuel condition NegInf polling_interval m
                = Some (Raise TimeoutError, m1)).
      { intros [|fuel] Hfuel Hnot; [lia|]. unfold wait_until, bind, time_time.
        rewrite wait_loop_pass_float, Hc.
        destruct o as [[|]|e]; [contradiction | reflexivity..]. }
      destruct o as [[|]|e].
      * exists 1%nat, (Return tt), (set_clock (clock m1 + 1)%Q m1). split; [|split].
        -- intros [|fuel] Hfuel; [lia|]. unfold wait_until, bind, time_time.
           now rewrite wait_loop_pass_float, Hc.
        -- now left.
        -- intros Hnever. specialize (Hnever m). rewrite Hc in Hnever.
           now contradiction Hnever.
      * exists 1%nat, (Raise TimeoutError), m1.
        split; [|split; [now right | reflexivity]].
        intros fuel Hfuel. now apply Hlate.
      * exists 1%nat, (Raise TimeoutError), m1.
        split; [|split; [now right | reflexivity]].
        intros fuel Hfuel. now apply Hlate.
  - intros Hlimit Hnever fuel. unfold wait_until, bind, time_time.
    now apply wait_loop_never_gives_up.
Qed.

End Polling.

(** * The timing profile and the randomized delay *)

Section Timing.

Context `{WebDriver}.

Implicit Types (m : Machine) (u : User).

(** C5: a call of the profile switch always returns, and the profile it
    leaves is a function of [engage] alone: turbo sets the three
    after-action ranges to (0, 0) and the arrival range to (1, 1); the human
    profile has four ranges with 0 < min < max.  Nothing else of the
    machine but the two mode flags changes. *)
Theorem turbo_switches_profile (engage : bool) m :
  exists m',
    do_turbo engage m = Some (Return tt, m') /\
    profile (self m') =
      (if engage then ((0, 0), (0, 0), (0, 0), (1, 1))
       else ((0.1, 0.5), (1, 2), (0.25, 1.5), (4, 10)))%Q /\
    (forall u, profile (turbo engage u) = profile (self m')) /\
    (engage = false ->
     Forall (fun r : range => (0 < fst r)%Q /\ (fst r < snd r)%Q)
       [after_key_wait (self m'); after_field_wait (self m');
        after_click_wait (self m'); arrival_wait (self m')]) /\
    one_key_at_a_time (self m') = negb engage /\
    turbo_engaged (self m') = engage /\
    locator_method (self m') = locator_method (self m) /\
    browser (self m') = browser (self m) /\
    clock m' = clock m /\ rng m' = rng m /\ clicked m' = clicked m.
Proof.
  exists (set_self (turbo engage (self m)) m).
  destruct engage; cbn; repeat split; try discriminate.
  intros _. repeat constructor.
Qed.

Lemma unit_draw_bounds (g : Rng) : (0 <= unit_draw g)%Q /\ (unit_draw g < 1)%Q.
Proof.
  unfold unit_draw, Qle, Qlt. cbn [Qnum Qden].
  pose proof (N.mod_upper_bound (fst (next_raw g)) (2 ^ 53)%N ltac:(discriminate)) as Hlt.
  split.
  - rewrite Z.mul_0_l, Z.mul_1_r. apply N2Z.is_nonneg.
  - rewrite Z.mul_1_r, Z.mul_1_l.
    change (Z.pos (2 ^ 53)) with (Z.of_N (2 ^ 53)%N). now apply N2Z.inj_lt.
Qed.

Lemma chill_run (min max : Q) m :
  chill (min, max) m =
    let d := (min + (max - min) * unit_draw (rng m))%Q in
    if Qgt_bool 0 d
    then Some (Raise ValueError, set_rng (snd (next_raw (rng m))) m)
    else Some (Return tt,
               set_clock (clock m + d)%Q (set_rng (snd (next_raw (rng m))) m)).
Proof. reflexivity. Qed.

(** C7 (as amended): for a range with 0 <= min <= max, [chill] sleeps
    [min + (max - min) * u] seconds, where [u] in [0, 1) is the number the
    random source yields, so the delay lies in [min, max]; every multiple of
    2^-53 in [0, 1) is a possible [u].  For the range (0, 0) the delay is
    zero and the clock does not move, and the three after-action ranges of
    the turbo profile are that range. *)
Theorem chill_sleeps_within_range (min max : Q) m :
  (0 <= min)%Q -> (min <= max)%Q ->
  let d := (min + (max - min) * unit_draw (rng m))%Q in
  (min <= d)%Q /\ (d <= max)%Q /\
  chill (min, max) m =
    Some (Return tt, set_clock (clock m + d)%Q (set_rng (snd (next_raw (rng m))) m)) /\
  (forall k : N, (k < 2 ^ 53)%N ->
     exists g, unit_draw g = Qmake (Z.of_N k) (2 ^ 53)%positive) /\
  (forall m0 m', chill (0, 0)%Q m0 = Some (Return tt, m') -> (clock m' == clock m0)%Q) /\
  (forall u, after_key_wait (turbo true u) = (0, 0)%Q /\
             after_field_wait (turbo true u) = (0, 0)%Q /\
             after_click_wait (turbo true u) = (0, 0)%Q).
Proof.
  intros Hmin Hle d.
  destruct (unit_draw_bounds (rng m)) as [Hu0 Hu1].
  assert (Hlo : (min <= d)%Q) by (unfold d; nra).
  assert (Hhi : (d <= max)%Q) by (unfold d; nra).
  split; [exact Hlo|]. split; [exact Hhi|]. split; [|split; [|split]].
  - rewrite chill_run. fold d.
    assert (Hd : Qgt_bool 0 d = false) by (apply Qgt_bool_false; lra).
    cbv zeta. fold d. now rewrite Hd.
  - intros k Hk. exists {| tape := fun _ => k; cursor := 0 |}.
    unfold unit_draw. cbn [next_raw fst tape cursor]. now rewrite N.mod_small.
  - intros m0 m' Hrun. rewrite chill_run in Hrun. cbv zeta in Hrun.
    destruct (Qgt_bool 0 (0 + (0 - 0) * unit_draw (rng m0))); [discriminate|].
    injection Hrun as <-. cbn [clock set_clock set_rng]. lra.
  - intros u. repeat split.
Qed.

End Timing.

(** * The frame of the timing profile *)

Create HintDb frame.

Section Frame.

Context `{WebDriver}.

Lemma keeps_ret {A} (a : A) : keeps_profile (ret a).
Proof. intros m r m' [= <- <-]. reflexivity. Qed.

Lemma keeps_raise {A} (e : exn) : keeps_profile (@raise _ A e).
Proof. intros m r m' [= <- <-]. reflexivity. Qed.

Lemma keeps_stuck {A} : keeps_profile (fun _ => @None (outcome A * Machine)).
Proof. intros m r m' [=]. Qed.

Lemma keeps_bind {A B} (c : M A) (k : A -> M B) :
  keeps_profile c -> (forall a, keeps_profile (k a)) -> keeps_profile (bind c k).
Proof.
  intros Hc Hk m r m' Hrun. unfold bind in Hrun.
  destruct (c m) as [[[a|e] m1]|] eqn:Hcm; [| |discriminate].
  - rewrite (Hk a _ _ _ Hrun). eapply Hc, Hcm.
  - injection Hrun as <- <-. eapply Hc, Hcm.
Qed.

Lemma keeps_try {A} (c : M A) (h : exn -> M A) :
  keeps_profile c -> (forall e, keeps_profile (h e)) -> keeps_profile (try_except c h).
Proof.
  intros Hc Hh m r m' Hrun. unfold try_except in Hrun.
  destruct (c m) as [[[a|e] m1]|] eqn:Hcm; [| |discriminate].
  - injection Hrun as <- <-. eapply Hc, Hcm.
  - rewrite (Hh e _ _ _ Hrun). eapply Hc, Hcm.
Qed.

Lemma keeps_time_time : keeps_profile time_time.
Proof. intros m r m' [= <- <-]. reflexivity. Qed.

Lemma keeps_time_sleep d : keeps_profile (time_sleep d).
Proof.
  intros m r m' Hrun. unfold time_sleep in Hrun.
  destruct (Qgt_bool 0 d); injection Hrun as <- <-; reflexivity.
Qed.

Lemma keeps_draw : keeps_profile draw.
Proof. intros m r m' [= <- <-]. reflexivity. Qed.

Lemma keeps_attr {A} (field : User -> A) : keeps_profile (attr field).
Proof. intros m r m' [= <- <-]. reflexivity. Qed.

Lemma keeps_driver_find how locator : keeps_profile (driver_find how locator).
Proof. intros m r m' [= <- <-]. reflexivity. Qed.

Lemma keeps_driver_click element : keeps_profile (driver_click element).
Proof.
  intros m r m' Hrun. unfold driver_click in Hrun.
  destruct (element_click element (browser (self m))) as [[[]|e] b];
    injection Hrun as <- <-; reflexivity.
Qed.

Lemma keeps_call (condition : PollCondition) :
  (forall m, profile (self (snd (condition m))) = profile (self m)) ->
  keeps_profile (call condition).
Proof.
  intros Hc m r m' Hrun. unfold call in Hrun. injection Hrun as Hrun.
  specialize (Hc m). rewrite Hrun in Hc. exact Hc.
Qed.

Hint Resolve keeps_ret keeps_raise keeps_stuck keeps_time_time keeps_time_sleep
  keeps_draw keeps_attr keeps_driver_find keeps_driver_click keeps_call : frame.

Ltac frame_step :=
  lazymatch goal with
  | |- keeps_profile (bind _ _) => apply keeps_bind; [|intros ?]
  | |- keeps_profile (try_except _ _) => apply keeps_try; [|intros ?]
  | |- keeps_profile (if ?b then _ else _) => destruct b
  | |- keeps_profile (match ?x with _ => _ end) => destruct x
  | |- keeps_profile _ => solve [eauto with frame]
  end.

Ltac frame := repeat frame_step.

Lemma keeps_random_uniform a b : keeps_profile (random_uniform a b).
Proof. unfold random_uniform, random_random. frame. Qed.

Lemma keeps_random_randint a b : keeps_profile (random_randint a b).
Proof. unfold random_randint. cbv zeta. frame. Qed.

Lemma keeps_sample_loop {A} k : forall live (pool : list A),
  keeps_profile (sample_loop k live pool).
Proof.
  induction k as [|k IH]; intros live pool; cbn [sample_loop]; frame.
Qed.

Hint Resolve keeps_random_uniform keeps_random_randint keeps_sample_loop : frame.

Lemma keeps_random_sample {A} (population : list A) k :
  keeps_profile (random_sample population k).
Proof. unfold random_sample. frame. Qed.

Lemma keeps_chill min_max : keeps_profile (chill min_max).
Proof. unfold chill. frame. Qed.

Hint Resolve keeps_random_sample keeps_chill : frame.

Lemma keeps_find locator : keeps_profile (find locator).
Proof. unfold find. frame. Qed.

Hint Resolve keeps_find : frame.

Lemma keeps_click locator : keeps_profile (click locator).
Proof. unfold click. frame. Qed.

Hint Resolve keeps_click : frame.

Lemma keeps_click_each options : forall element,
  keeps_profile (click_each options element).
Proof. induction options as [|o rest IH]; intros element; cbn [click_each]; frame. Qed.

Hint Resolve keeps_click_each : frame.

Lemma keeps_click_elements locators max_selections min_selections :
  keeps_profile (click_elements locators max_selections min_selections).
Proof. unfold click_elements. cbv zeta. frame. Qed.

Lemma keeps_list_setitem {A} (l : list A) index x : keeps_profile (list_setitem l index x).
Proof. unfold list_setitem. cbv zeta. frame. Qed.

Hint Resolve keeps_list_setitem : frame.

Lemma keeps_unused_index fuel num_options selected_indexes : forall index,
  keeps_profile (unused_index fuel num_options selected_indexes index).
Proof.
  induction fuel as [|fuel IH]; intros index; cbn [unused_index]; frame.
Qed.

Hint Resolve keeps_unused_index : frame.

Lemma keeps_choose count fuel num_options : forall click_list selected_indexes,
  keeps_profile (choose count fuel num_options click_list selected_indexes).
Proof.
  induction count as [|count IH]; intros click_list selected_indexes;
    cbn [choose]; frame.
Qed.

Hint Resolve keeps_choose : frame.

Lemma keeps_get_click_list fuel num_options max_choices min_choices :
  keeps_profile (get_click_list fuel num_options max_choices min_choices).
Proof. unfold get_click_list. cbv zeta. frame. Qed.

Lemma keeps_wait_until fuel (condition : PollCondition) max_wait polling_interval :
  (forall m, profile (self (snd (condition m))) = profile (self m)) ->
  keeps_profile (wait_until fuel condition max_wait polling_interval).
Proof.
  intros Hc. unfold wait_until. apply keeps_bind; [frame|]. intros start_time.
  induction fuel as [|fuel IH]; cbn [wait_loop]; [frame|].
  apply keeps_bind; [unfold wait_pass; frame|].
  intros [|]; frame.
Qed.

Hint Resolve keeps_click_elements keeps_get_click_list keeps_wait_until : frame.

(** C6: every operation of the engine other than the profile switch leaves
    the four delay ranges as it found them, whatever way it ends (the
    condition handed to [wait_until] being caller code that does not itself
    call the switch). *)
Theorem profile_changed_only_by_turbo fuel (op : Operation) m r m' :
  (forall engage, op <> Turbo engage) ->
  conditions_keep_profile op ->
  perform fuel op m = Some (r, m') ->
  profile (self m') = profile (self m).
Proof.
  intros Hop Hcond Hrun.
  assert (Hk : keeps_profile (perform fuel op)); [|exact (Hk _ _ _ Hrun)].
  destruct op; cbn [perform conditions_keep_profile] in *; frame.
  exfalso. eapply Hop. reflexivity.
Qed.

End Frame.

(** * The sparse choice vector *)

Section Choosing.

Context `{WebDriver}.

Implicit Types (m : Machine) (selected : list Z) (click_list : list string).

Lemma randint_run a b m :
  a <= b ->
  random_randint a b m = Some (Return (a + Z.of_N (raw m) mod (b - a + 1)), after_draw m).
Proof.
  intros Hab. unfold random_randint. cbv zeta.
  destruct (b - a + 1 <=? 0) eqn:Hw; [lia | reflexivity].
Qed.

Lemma randint_empty a b m :
  b < a -> random_randint a b m = Some (Raise ValueError, m).
Proof.
  intros Hab. unfold random_randint. cbv zeta.
  destruct (b - a + 1 <=? 0) eqn:Hw; [reflexivity | lia].
Qed.

Lemma randint_bounds a b (r : N) :
  a <= b -> a <= a + (Z.of_N r) mod (b - a + 1) /\ a + (Z.of_N r) mod (b - a + 1) <= b.
Proof.
  intros Hab. pose proof (Z.mod_pos_bound (Z.of_N r) (b - a + 1) ltac:(lia)). lia.
Qed.

Lemma randint_index num_options m :
  0 < num_options ->
  random_randint 0 (num_options - 1) m
  = Some (Return (Z.of_N (raw m) mod num_options), after_draw m).
Proof.
  intros Hn. rewrite randint_run by lia.
  replace (num_options - 1 - 0 + 1) with num_options by lia. reflexivity.
Qed.

Lemma index_in_range num_options (r : N) :
  0 < num_options -> 0 <= Z.of_N r mod num_options < num_options.
Proof. intros Hn. now apply Z.mod_pos_bound. Qed.

(** The [while] loop can only leave with an index that is not selected. *)
Lemma unused_index_inv num_options selected fuel : forall index m r m',
  0 < num_options -> 0 <= index < num_options ->
  unused_index fuel num_options selected index m = Some (r, m') ->
  exists found, r = Return found /\ (found ∉ selected) /\ (0 <= found < num_options) /\
                tape (rng m') = tape (rng m).
Proof.
  induction fuel as [|fuel IH]; intros index m r m' Hn Hidx Hrun;
    cbn [unused_index] in Hrun; case_bool_decide as Hin.
  - discriminate.
  - injection Hrun as <- <-. eauto.
  - unfold bind in Hrun. rewrite randint_index in Hrun by assumption.
    apply IH in Hrun as (found & -> & Hout & Hrange & Htape);
      [|assumption|now apply index_in_range].
    exists found. repeat split; try assumption; lia.
  - injection Hrun as <- <-. eauto.
Qed.

Lemma sparse_start num_options :
  sparse num_options [] (replicate (Z.to_nat num_options) "skip"%string).
Proof.
  split; [apply length_replicate|]. split; [constructor|]. split.
  - intros x Hx. inversion Hx.
  - intros i Hi. rewrite length_replicate in Hi.
    rewrite lookup_replicate_2 by assumption.
    case_bool_decide as Hin; [inversion Hin | reflexivity].
Qed.

Lemma sparse_select num_options selected click_list found :
  sparse num_options selected click_list ->
  found ∉ selected -> 0 <= found < num_options ->
  list_setitem click_list found Keys_SPACE
  = ret (<[Z.to_nat found := Keys_SPACE]> click_list) /\
  sparse num_options (selected ++ [found]) (<[Z.to_nat found := Keys_SPACE]> click_list).
Proof.
  intros (Hlen & Hnodup & Hrange & Hslots) Hout Hfound. split.
  - unfold list_setitem. cbv zeta. rewrite Hlen, Z2Nat.id by lia.
    destruct (Z.ltb_spec found 0) as [Hneg|_]; [lia|].
    destruct (Z.ltb_spec found 0) as [Hneg|_]; [lia|].
    destruct (Z.leb_spec num_options found) as [Hbig|_]; [lia | reflexivity].
  - split; [now rewrite length_insert|]. split; [|split].
    + apply NoDup_app. split; [assumption|]. split; [|apply NoDup_singleton].
      intros x Hx Hx'. apply list_elem_of_singleton in Hx'. now subst.
    + intros x Hx. apply elem_of_app in Hx as [Hx|Hx]; [now apply Hrange|].
      apply list_elem_of_singleton in Hx. now subst.
    + intros i Hi. rewrite length_insert in Hi.
      destruct (decide (i = Z.to_nat found)) as [->|Hne].
      * rewrite list_lookup_insert_eq by assumption.
        rewrite bool_decide_eq_true_2; [reflexivity|].
        apply elem_of_app. right. apply list_elem_of_singleton. lia.
      * rewrite list_lookup_insert_ne by congruence. rewrite Hslots by assumption.
        rewrite (bool_decide_ext (Z.of_nat i ∈ selected ++ [found]) (Z.of_nat i ∈ selected));
          [reflexivity|].
        rewrite elem_of_app, list_elem_of_singleton. split; [|tauto].
        intros [Hin|Heq]; [assumption|]. lia.
Qed.

(** Every pass of the [for] loop adds one fresh index. *)
Lemma choose_sparse num_options fuel count : forall click_list selected m r m',
  0 < num_options ->
  sparse num_options selected click_list ->
  choose count fuel num_options click_list selected m = Some (r, m') ->
  exists l selected',
    r = Return l /\ sparse num_options selected' l /\
    length selected' = (length selected + count)%nat.
Proof.
  induction count as [|count IH]; intros click_list selected m r m' Hn Hsp Hrun;
    cbn [choose] in Hrun.
  - injection Hrun as <- <-. exists click_list, selected.
    split; [reflexivity|]. split; [assumption | lia].
  - unfold bind at 1 in Hrun. rewrite randint_index in Hrun by assumption.
    unfold bind at 1 in Hrun.
    destruct (unused_index fuel num_options selected
                (Z.of_N (raw m) mod num_options) (after_draw m))
      as [[r1 m1]|] eqn:Hfind; [|discriminate].
    apply unused_index_inv in Hfind as (found & -> & Hout & Hrange & _);
      [|assumption|now apply index_in_range].
    destruct (sparse_select _ _ _ _ Hsp Hout Hrange) as [Hset Hsp'].
    unfold bind in Hrun. rewrite Hset in Hrun. cbn [ret] in Hrun.
    apply IH in Hrun as (l & selected' & -> & Hl & Hlen); [|assumption..].
    exists l, selected'. split; [reflexivity|]. split; [assumption|].
    rewrite Hlen, length_app. cbn. lia.
Qed.

Lemma selection_length num_options selected :
  NoDup selected -> (forall x, x ∈ selected -> 0 <= x < num_options) ->
  (length selected <= Z.to_nat num_options)%nat.
Proof.
  intros Hnodup Hrange. rewrite <- (length_seqZ 0 num_options).
  apply submseteq_length, NoDup_submseteq; [assumption|].
  intros x Hx. apply elem_of_seqZ. specialize (Hrange x Hx). lia.
Qed.

(** Once as many indexes are selected as there are options, every index
    is selected. *)
Lemma full_selection num_options selected :
  NoDup selected -> (forall x, x ∈ selected -> 0 <= x < num_options) ->
  (Z.to_nat num_options <= length selected)%nat ->
  forall x, 0 <= x < num_options -> x ∈ selected.
Proof.
  intros Hnodup Hrange Hlen x Hx.
  assert (Hsub : selected ⊆+ seqZ 0 num_options).
  { apply NoDup_submseteq; [assumption|].
    intros y Hy. apply elem_of_seqZ. specialize (Hrange y Hy). lia. }
  apply submseteq_length_Permutation in Hsub; [|now rewrite length_seqZ].
  rewrite Hsub. apply elem_of_seqZ. lia.
Qed.

Lemma free_index num_options selected :
  (length selected < Z.to_nat num_options)%nat ->
  exists x, 0 <= x < num_options /\ x ∉ selected.
Proof.
  intros Hlen.
  destruct (Forall_Exists_dec (fun x => x ∈ selected) (fun x => x ∉ selected)
              (fun x => decide (x ∈ selected)) (seqZ 0 num_options)) as [Hall|Hex].
  - assert (Hsub : seqZ 0 num_options ⊆+ selected).
    { apply NoDup_submseteq; [apply NoDup_seqZ|].
      intros x Hx. rewrite Forall_forall in Hall. now apply Hall. }
    apply submseteq_length in Hsub. rewrite length_seqZ in Hsub. lia.
  - apply Exists_exists in Hex as (x & Hx & Hout).
    exists x. split; [|assumption]. apply elem_of_seqZ in Hx. lia.
Qed.

Lemma unused_index_free num_options selected fuel index m :
  index ∉ selected ->
  unused_index fuel num_options selected index m = Some (Return index, m).
Proof.
  intros Hout. destruct fuel; cbn [unused_index];
    rewrite bool_decide_eq_false_2 by assumption; reflexivity.
Qed.

(** The [while] loop ends as soon as the random source yields an index
    that is not selected. *)
Lemma unused_index_finds num_options selected j : forall fuel index m,
  0 < num_options -> (j < fuel)%nat ->
  Z.of_N (tape (rng m) (cursor (rng m) + j)%nat) mod num_options ∉ selected ->
  exists found m',
    unused_index fuel num_options selected index m = Some (Return found, m') /\
    tape (rng m') = tape (rng m).
Proof.
  induction j as [|j IH]; intros fuel index m Hn Hfuel Hfree;
    (destruct (decide (index ∈ selected)) as [Hin|Hout];
     [|exists index, m; split; [now apply unused_index_free | reflexivity]]);
    (destruct fuel as [|fuel]; [lia|]);
    cbn [unused_index]; rewrite bool_decide_eq_true_2 by assumption;
    unfold bind; rewrite randint_index by assumption.
  - rewrite Nat.add_0_r in Hfree.
    exists (Z.of_N (raw m) mod num_options), (after_draw m).
    split; [now apply unused_index_free | reflexivity].
  - destruct (IH fuel (Z.of_N (raw m) mod num_options) (after_draw m))
      as (found & m' & Hrun & Htape); [assumption | lia | |].
    + cbn [after_draw set_rng rng next_raw snd tape cursor].
      now rewrite Nat.add_succ_comm.
    + exists found, m'. split; [exact Hrun | exact Htape].
Qed.

(** With a fair random source and room left, the [for] loop finishes. *)
Lemma choose_finishes num_options bound count : forall click_list selected m,
  0 < num_options ->
  sparse num_options selected click_list ->
  (length selected + count <= Z.to_nat num_options)%nat ->
  fair bound num_options (tape (rng m)) ->
  exists l m', choose count bound num_options click_list selected m = Some (Return l, m').
Proof.
  induction count as [|count IH]; intros click_list selected m Hn Hsp Hroom Hfair;
    cbn [choose].
  - now exists click_list, m.
  - unfold bind at 1. rewrite randint_index by assumption. unfold bind at 1.
    destruct (free_index num_options selected ltac:(lia)) as (x & Hx & Hout).
    destruct (Hfair (cursor (rng (after_draw m))) x Hx) as (j & Hj & Hdraw).
    destruct (unused_index_finds num_options selected j bound
                (Z.of_N (raw m) mod num_options) (after_draw m) Hn Hj)
      as (found & m1 & Hfind & Htape).
    { change (tape (rng (after_draw m))) with (tape (rng m)). now rewrite Hdraw. }
    rewrite Hfind.
    apply unused_index_inv in Hfind as (found' & [= <-] & Hout' & Hrange & _);
      [|assumption|now apply index_in_range].
    destruct (sparse_select _ _ _ _ Hsp Hout' Hrange) as [Hset Hsp'].
    unfold bind. rewrite Hset. cbn [ret].
    apply IH; [assumption | assumption | rewrite length_app; cbn; lia |].
    now rewrite Htape.
Qed.

(** With more choices to make than options left, the [for] loop cannot
    finish: the [while] loop of some pass has no index to find. *)
Lemma choose_exhausts num_options fuel count : forall click_list selected m,
  0 < num_options ->
  sparse num_options selected click_list ->
  (Z.to_nat num_options < length selected + count)%nat ->
  choose count fuel num_options click_list selected m = None.
Proof.
  induction count as [|count IH]; intros click_list selected m Hn Hsp Hover;
    cbn [choose].
  - destruct Hsp as (_ & Hnodup & Hrange & _).
    pose proof (selection_length _ _ Hnodup Hrange). lia.
  - unfold bind at 1. rewrite randint_index by assumption. unfold bind at 1.
    destruct (unused_index fuel num_options selected
                (Z.of_N (raw m) mod num_options) (after_draw m))
      as [[r1 m1]|] eqn:Hfind; [|reflexivity].
    apply unused_index_inv in Hfind as (found & -> & Hout & Hrange & _);
      [|assumption|now apply index_in_range].
    destruct (sparse_select _ _ _ _ Hsp Hout Hrange) as [Hset Hsp'].
    unfold bind. rewrite Hset. cbn [ret].
    apply IH; [assumption | assumption |].
    rewrite length_app. cbn.
    destruct (decide (Z.to_nat num_options <= length selected)%nat) as [Hfull|Hroom];
      [|lia].
    destruct Hsp as (_ & Hnodup & Hsel & _).
    destruct Hout. now apply (full_selection num_options).
Qed.

(** C8: for num_options >= 1 and 1 <= min_choices <= max_choices <=
    num_options, a call of [get_click_list] that returns yields a list of
    length num_options in which the slots at k distinct indexes, min_choices
    <= k <= max_choices, hold [Keys.SPACE] and every other slot holds 'skip',
    and it raises nothing; with a random source in which every index turns
    up among any [bound] consecutive draws the call does return; and with
    max_choices = 1 it returns for every random source, with exactly one
    slot changed from 'skip' to [Keys.SPACE], which is a different string. *)
Theorem get_click_list_sparse num_options max_choices min_choices :
  1 <= num_options -> 1 <= min_choices -> min_choices <= max_choices ->
  max_choices <= num_options ->
  (forall fuel m r m',
     get_click_list fuel num_options max_choices min_choices m = Some (r, m') ->
     exists l selected,
       r = Return l /\ sparse num_options selected l /\
       min_choices <= Z.of_nat (length selected) <= max_choices) /\
  (forall bound m,
     fair bound num_options (tape (rng m)) ->
     exists l m',
       get_click_list bound num_options max_choices min_choices m = Some (Return l, m')) /\
  (max_choices = 1 ->
   forall fuel m,
     exists (i : nat) m',
       (i < Z.to_nat num_options)%nat /\
       get_click_list fuel num_options max_choices min_choices m
       = Some (Return (<[i := Keys_SPACE]> (replicate (Z.to_nat num_options) "skip"%string)),
               m')) /\
  Keys_SPACE <> "skip"%string.
Proof.
  intros Hn Hmin Hle Hmax.
  assert (Hcount : forall r : N,
            min_choices <= min_choices + Z.of_N r mod (max_choices - min_choices + 1)
            /\ min_choices + Z.of_N r mod (max_choices - min_choices + 1) <= max_choices)
    by (intros r; now apply randint_bounds).
  split; [|split; [|split; [|discriminate]]].
  - intros fuel m r m' Hrun. unfold get_click_list in Hrun. cbv zeta in Hrun.
    unfold bind in Hrun. rewrite randint_run in Hrun by assumption.
    apply choose_sparse in Hrun as (l & selected & -> & Hsp & Hlen);
      [|lia|apply sparse_start].
    exists l, selected. split; [reflexivity|]. split; [assumption|].
    specialize (Hcount (raw m)). cbn [length] in Hlen. lia.
  - intros bound m Hfair. unfold get_click_list. cbv zeta.
    unfold bind. rewrite randint_run by assumption.
    apply choose_finishes; [lia | apply sparse_start | | exact Hfair].
    specialize (Hcount (raw m)). cbn [length]. lia.
  - intros -> fuel m. assert (min_choices = 1) as -> by lia.
    unfold get_click_list. cbv zeta. unfold bind at 1.
    rewrite randint_run by lia. change (1 - 1 + 1) with 1. rewrite Z.mod_1_r.
    change (Z.to_nat (1 + 0)) with 1%nat. cbn [choose].
    unfold bind at 1. rewrite randint_index by lia. unfold bind at 1.
    rewrite unused_index_free by (intros Hin; inversion Hin).
    pose proof (index_in_range num_options (raw (after_draw m)) ltac:(lia)) as Hidx.
    destruct (sparse_select num_options [] _ _ (sparse_start num_options)
                ltac:(intros Hin; inversion Hin) Hidx) as [Hset _].
    unfold bind. rewrite Hset. cbn [ret].
    eexists _, _. split; [|reflexivity]. lia.
Qed.

(** C10 (as amended): for num_options >= 1, when the count drawn from
    [min_choices, max_choices] exceeds num_options the call does not
    finish, whatever the iteration budget and the random source: a pass of
    the [for] loop is left with no unused index to find.  For num_options
    <= 0 and a positive count the call ends at once, with the [ValueError]
    of [random.randint(0, num_options - 1)]. *)
Theorem get_click_list_never_ends fuel num_options max_choices min_choices m count m1 :
  random_randint min_choices max_choices m = Some (Return count, m1) ->
  (1 <= num_options -> num_options < count ->
   get_click_list fuel num_options max_choices min_choices m = None) /\
  (num_options <= 0 -> 0 < count ->
   get_click_list fuel num_options max_choices min_choices m
   = Some (Raise ValueError, m1)).
Proof.
  intros Hdraw. split.
  - intros Hn Hover. unfold get_click_list. cbv zeta. unfold bind. rewrite Hdraw.
    apply choose_exhausts; [lia | apply sparse_start |]. cbn [length]. lia.
  - intros Hn Hcount. unfold get_click_list. cbv zeta. unfold bind at 1. rewrite Hdraw.
    destruct (Z.to_nat count) as [|passes] eqn:Hpasses; [lia|]. cbn [choose].
    unfold bind. now rewrite randint_empty by lia.
Qed.

End Choosing.

(** * Clicking a random selection *)

Section Clicking.

Context `{WebDriver}.

Implicit Types (m : Machine) (locators options : list string).

(** Taking entry [j] of the live part of the pool and moving the last live
    entry into its place leaves the other live entries. *)
Lemma take_swap_remove {A} (pool : list A) live j x y :
  (j < live)%nat -> (live <= length pool)%nat ->
  pool !! j = Some x -> pool !! (live - 1)%nat = Some y ->
  x :: take (live - 1) (<[j := y]> pool) ≡ₚ take live pool.
Proof.
  intros Hj Hlive Hx Hy. destruct live as [|n]; [lia|].
  replace (S n - 1)%nat with n in * by lia.
  rewrite (take_S_r pool n y Hy).
  destruct (decide (j = n)) as [->|Hne].
  - rewrite take_insert_ge by lia. assert (x = y) as -> by congruence.
    apply Permutation_cons_append.
  - rewrite take_insert_lt by lia.
    assert (Hl0 : take n pool !! j = Some x) by (rewrite lookup_take_lt by lia; exact Hx).
    rewrite insert_take_drop by (rewrite length_take; lia).
    rewrite <- (take_drop_middle (take n pool) j x Hl0) at 3.
    rewrite <- !Permutation_middle, app_nil_r. apply perm_swap.
Qed.

(** The sample is made of entries at distinct positions of the pool. *)
Lemma sample_loop_run {A} k : forall live (pool : list A) m,
  (k <= live)%nat -> (live <= length pool)%nat ->
  exists chosen m',
    sample_loop k live pool m = Some (Return chosen, m') /\
    chosen ⊆+ take live pool /\ length chosen = k /\
    self m' = self m /\ clicked m' = clicked m.
Proof.
  induction k as [|k IH]; intros live pool m Hk Hlive; cbn [sample_loop].
  - exists [], m. repeat split. apply submseteq_nil_l.
  - unfold bind at 1. change (draw m) with (Some (Return (raw m), after_draw m)).
    cbv zeta.
    assert (Hj : (N.to_nat (raw m) mod live < live)%nat)
      by (apply Nat.mod_upper_bound; lia).
    destruct (lookup_lt_is_Some_2 pool (N.to_nat (raw m) mod live) ltac:(lia)) as [x Hx].
    destruct (lookup_lt_is_Some_2 pool (live - 1) ltac:(lia)) as [y Hy].
    rewrite Hx, Hy.
    destruct (IH (live - 1)%nat (<[(N.to_nat (raw m) mod live)%nat := y]> pool) (after_draw m))
      as (chosen & m' & Hrun & Hsub & Hlen & Hself & Hclicked);
      [lia | rewrite length_insert; lia |].
    exists (x :: chosen), m'. unfold bind. rewrite Hrun.
    split; [reflexivity|]. split; [|split; [cbn; lia | split; assumption]].
    rewrite <- (take_swap_remove pool live _ x y Hj Hlive Hx Hy).
    now apply submseteq_skip.
Qed.

Lemma random_sample_run {A} (population : list A) k m :
  0 <= k <= Z.of_nat (length population) ->
  exists chosen m',
    random_sample population k m = Some (Return chosen, m') /\
    chosen ⊆+ population /\ Z.of_nat (length chosen) = k /\
    self m' = self m /\ clicked m' = clicked m.
Proof.
  intros Hk. unfold random_sample.
  destruct (Z.ltb_spec k 0) as [Hneg|_]; [lia|].
  destruct (Z.ltb_spec (Z.of_nat (length population)) k) as [Hbig|_]; [lia|].
  cbn [orb].
  destruct (sample_loop_run (Z.to_nat k) (length population) population m)
    as (chosen & m' & Hrun & Hsub & Hlen & Hself & Hclicked); [lia | lia |].
  exists chosen, m'. rewrite take_ge in Hsub by lia.
  repeat split; try assumption. lia.
Qed.

Lemma find_run how locator m :
  strategy (locator_method (self m)) = Some how ->
  find locator m
  = Some (match find_element how locator (browser (self m)) with
          | Return e => Return (Some e)
          | Raise x => Raise x
          end, m).
Proof.
  unfold strategy, find, bind, attr, driver_find, ret. intros Hhow.
  repeat (destruct (String.eqb (locator_method (self m)) _);
          [injection Hhow as <-;
           now destruct (find_element _ locator (browser (self m)))|]).
  discriminate.
Qed.

Lemma chill_nonnegative (min_max : range) m :
  (0 <= fst min_max)%Q -> (0 <= snd min_max)%Q ->
  exists d : Q,
    chill min_max m = Some (Return tt, set_clock (clock m + d)%Q (after_draw m)).
Proof.
  destruct min_max as [a b]. cbn [fst snd]. intros Ha Hb.
  exists (a + (b - a) * unit_draw (rng m))%Q. rewrite chill_run. cbv zeta.
  destruct (unit_draw_bounds (rng m)) as [Hu0 Hu1].
  assert (Hd : Qgt_bool 0 (a + (b - a) * unit_draw (rng m)) = false)
    by (apply Qgt_bool_false; nra).
  now rewrite Hd.
Qed.

Lemma click_run how element_of present locator m :
  ready how present m -> clickable how element_of present locator ->
  exists m',
    click locator m = Some (Return (element_of locator), m') /\
    clicked m' = clicked m ++ [element_of locator] /\
    ready how present m'.
Proof.
  intros (Hhow & Hlo & Hhi & Hpage) Hclick. unfold click. unfold bind at 1.
  rewrite (find_run how) by assumption.
  destruct (Hclick (browser (self m)) Hpage) as (Hfind & Hok & Hpage'). rewrite Hfind.
  unfold bind at 1, driver_click.
  destruct (element_click (element_of locator) (browser (self m))) as [r b].
  cbn [fst snd] in Hok, Hpage'. subst r.
  unfold bind at 1, attr. cbn [self].
  set (m1 := {| self := set_browser b (self m); clock := clock m; rng := rng m;
                clicked := clicked m ++ [element_of locator] |}).
  destruct (chill_nonnegative (after_click_wait (set_browser b (self m))) m1 Hlo Hhi)
    as [d Hchill].
  unfold bind. rewrite Hchill. eexists. split; [reflexivity|].
  split; [reflexivity|]. repeat split; assumption.
Qed.

Lemma click_each_run how element_of present options : forall element m,
  ready how present m ->
  (forall locator, locator ∈ options -> clickable how element_of present locator) ->
  exists m',
    click_each options element m
    = Some (Return (match last options with
                    | Some locator => Some (element_of locator)
                    | None => element
                    end), m') /\
    clicked m' = clicked m ++ map element_of options.
Proof.
  induction options as [|option rest IH]; intros element m Hready Hall; cbn [click_each].
  - exists m. split; [reflexivity|]. cbn. now rewrite app_nil_r.
  - destruct (click_run how element_of present option m Hready)
      as (m1 & Hrun & Hlog & Hready1).
    { apply Hall. left. }
    destruct (IH (Some (element_of option)) m1 Hready1) as (m' & Hrest & Hlog').
    { intros locator Hin. apply Hall. now right. }
    exists m'. unfold bind. rewrite Hrun, Hrest. split.
    + rewrite last_cons. now destruct (last rest).
    + rewrite Hlog', Hlog, <- app_assoc. reflexivity.
Qed.

(** C9: for a list of locators that can all be found and clicked, and
    bounds 1 <= min_selections <= max_selections <= len(locators) (the
    maximum being len(locators) when not given), [click_elements] clicks
    the entries at between min_selections and max_selections distinct
    positions of the list, each once, and returns the element of the last
    one clicked; when the locators are all different, so are the ones
    clicked. *)
Theorem click_elements_clicks_selection how element_of present locators
    max_selections min_selections m :
  let max_count := default (Z.of_nat (length locators)) max_selections in
  ready how present m ->
  (forall locator, locator ∈ locators -> clickable how element_of present locator) ->
  1 <= min_selections -> min_selections <= max_count ->
  max_count <= Z.of_nat (length locators) ->
  exists options last_option m',
    click_elements locators max_selections min_selections m
    = Some (Return (element_of last_option), m') /\
    options ⊆+ locators /\
    min_selections <= Z.of_nat (length options) <= max_count /\
    last options = Some last_option /\
    clicked m' = clicked m ++ map element_of options /\
    (NoDup locators -> NoDup options).
Proof.
  intros max_count Hready Hall Hmin Hle Hmax. unfold click_elements.
  assert (Hdefault :
    match max_selections with
    | Some n => if n =? 0 then Z.of_nat (length locators) else n
    | None => Z.of_nat (length locators)
    end = max_count).
  { unfold max_count. destruct max_selections as [n|]; cbn [default]; [|reflexivity].
    destruct (Z.eqb_spec n 0) as [->|]; [|reflexivity].
    unfold max_count in Hle. cbn in Hle. lia. }
  cbv zeta. rewrite Hdefault. unfold bind at 1. rewrite randint_run by assumption.
  pose proof (randint_bounds min_selections max_count (raw m) Hle) as [Hlo Hhi].
  set (k := min_selections + Z.of_N (raw m) mod (max_count - min_selections + 1)) in *.
  destruct (random_sample_run locators k (after_draw m))
    as (options & m1 & Hsample & Hsub & Hlen & Hself & Hclicked); [lia|].
  unfold bind at 1. rewrite Hsample.
  destruct (click_each_run how element_of present options None m1) as (m' & Hrun & Hlog).
  { unfold ready. rewrite Hself. exact Hready. }
  { intros locator Hin. apply Hall. eapply elem_of_submseteq; eassumption. }
  unfold bind. rewrite Hrun.
  destruct (last options) as [last_option|] eqn:Hlast.
  - exists options, last_option, m'. split; [reflexivity|]. split; [assumption|].
    split; [lia|]. split; [exact Hlast|]. split; [now rewrite Hlog, Hclicked|].
    intros Hnodup. apply submseteq_Permutation in Hsub as [rest Hperm].
    rewrite Hperm in Hnodup. now apply NoDup_app in Hnodup.
  - apply last_None in Hlast. subst options. cbn [length] in Hlen. lia.
Qed.

End Clicking.

(** * Runs on concrete machines *)

(** A condition that is never true, [max_wait = 0.2], [polling_interval =
    0.05]: the sixth pass finds 0.25 s elapsed and raises. *)
Example wait_until_gives_up_after_a_quarter_second :
  wait_until 5 (answers 0 false) 0.2 0.05 (boot [] (counting 0)) = None /\
  match wait_until 6 (answers 0 false) 0.2 0.05 (boot [] (counting 0)) with
  | Some (Raise TimeoutError, m') => (clock m' == 0.25)%Q
  | _ => False
  end.
Proof. split; reflexivity. Qed.

Example get_click_list_picks_one_of_five :
  get_click_list 0 5 1 1 (boot [] (counting 0))
  = Some (Return ["skip"; Keys_SPACE; "skip"; "skip"; "skip"]%string,
          after_draw (after_draw (boot [] (counting 0)))).
Proof. reflexivity. Qed.

Example get_click_list_picks_two_or_three :
  match get_click_list 5 5 3 2 (boot [] (counting 7)) with
  | Some (Return l, _) =>
      l = [Keys_SPACE; "skip"; "skip"; Keys_SPACE; Keys_SPACE]%string
  | _ => False
  end.
Proof. reflexivity. Qed.

Example click_elements_clicks_three_of_four :
  match click_elements ["//a"; "//b"; "//c"; "//d"]%string (Some 3) 1
          (boot ["//a"; "//b"; "//c"; "//d"]%string (counting 5)) with
  | Some (Return e, m') =>
      e = "//a"%string /\ clicked m' = ["//c"; "//b"; "//a"]%string
  | _ => False
  end.
Proof. vm_compute. split; reflexivity. Qed.

Example click_elements_on_a_missing_element :
  match click_elements ["//a"; "//b"]%string None 2 (boot ["//b"]%string (counting 0)) with
  | Some (Raise (OtherError name), m') =>
      name = "NoSuchElementException"%string /\ clicked m' = ["//b"]%string
  | _ => False
  end.
Proof. vm_compute. split; reflexivity. Qed.

(** C1, as stated, fails: a condition that takes 20 seconds to return true
    leaves the elapsed time above [max_wait = 10], and the call returns
    normally; with [max_wait = -1] the elapsed time exceeds [max_wait]
    before the first evaluation, and the call returns normally as well. *)
Lemma wait_until_late_success :
  let m := boot [] (counting 0) in
  let m1 := snd (answers 20 true m) in
  (10 < clock m1 - clock m)%Q /\
  wait_until 1 (answers 20 true) 10 0.1 m = Some (Return tt, set_clock (clock m1 + 1)%Q m1) /\
  (-1 < clock m - clock m)%Q /\
  wait_until 1 (answers 0 true) (-1) 0.1 m
  = Some (Return tt, set_clock (clock (snd (answers 0 true m)) + 1)%Q (snd (answers 0 true m))).
Proof. cbv zeta. repeat split. Qed.

Lemma wait_until_timeout_check_witness :
  let m := boot [] (counting 0) in
  let m1 := snd (answers (1 # 2) false (at_pass (answers (1 # 2) false) 0 1 m)) in
  reaches (answers (1 # 2) false) (3 # 4) 0 m 1 /\
  (3 # 4 < clock m1 - clock m)%Q /\
  wait_until 2 (answers (1 # 2) false) (3 # 4) 0 m = Some (Raise TimeoutError, m1).
Proof.
  cbv zeta.
  assert (Hreach : reaches (answers (1 # 2) false) (3 # 4) 0 (boot [] (counting 0)) 1).
  { intros i Hi. assert (i = O) as -> by lia.
    split; [discriminate|]. split; vm_compute; discriminate. }
  split; [exact Hreach|]. split; [reflexivity|].
  refine (proj1 (proj2 (wait_until_timeout_check (answers (1 # 2) false) (3 # 4) 0
            (boot [] (counting 0)) 1 0 (Return false) _ Hreach eq_refl)) _ _).
  - discriminate.
  - reflexivity.
Defined.

(** C2, as stated, fails: a condition that raises on its first two calls
    and returns true on the third does not make the call succeed when the
    second failure comes after [max_wait]: here, with [max_wait = 0], the
    second call raises 0.1 s after the start and the call raises
    [TimeoutError] without trying the third time. *)
Lemma wait_until_times_out_on_second_raise :
  let m := boot [] (counting 0) in
  let again m := set_clock (clock m + 0.1)%Q m in
  fst (raises_until 0.2 m) = Raise (OtherError "StaleElementReferenceException") /\
  fst (raises_until 0.2 (again m)) = Raise (OtherError "StaleElementReferenceException") /\
  raises_until 0.2 (again (again m)) = (Return true, again (again m)) /\
  wait_until 3 (raises_until 0.2) 0 0.1 m = Some (Raise TimeoutError, again m).
Proof. cbv zeta. repeat split. Qed.

Lemma wait_until_swallows_witness :
  let m := boot [] (counting 0) in
  let again m := set_clock (clock m + 0.1)%Q m in
  fst (raises_until 0.2 m) = Raise (OtherError "StaleElementReferenceException") /\
  fst (raises_until 0.2 (again m)) = Raise (OtherError "StaleElementReferenceException") /\
  raises_until 0.2 (again (again m)) = (Return true, again (again m)) /\
  wait_until 3 (raises_until 0.2) 10 0.1 m
  = Some (Return tt, set_clock (clock (again (again m)) + 1)%Q (again (again m))).
Proof.
  cbv zeta. split; [reflexivity|]. split; [reflexivity|]. split; [reflexivity|].
  refine (proj2 (wait_until_swallows (raises_until 0.2) 10 0.1 0 (boot [] (counting 0)))
            _ _ _ _ _ eq_refl eq_refl eq_refl _ _ _);
    vm_compute; discriminate.
Defined.

Lemma wait_until_settles_on_true_witness :
  let m := boot [] (counting 0) in
  reaches (answers 0 true) 10 0.1 m 0 /\
  answers 0 true m = (Return true, set_clock (clock m + 0)%Q m) /\
  wait_until 1 (answers 0 true) 10 0.1 m
  = Some (Return tt, set_clock (clock m + 0 + 1)%Q m).
Proof.
  cbv zeta.
  assert (Hreach : reaches (answers 0 true) 10 0.1 (boot [] (counting 0)) 0).
  { intros i Hi. lia. }
  split; [exact Hreach|]. split; [reflexivity|].
  exact (proj1 (wait_until_settles_on_true (answers 0 true) 10 0.1
                  (boot [] (counting 0)) 0 0 _ Hreach eq_refl)).
Defined.

(** C4, as stated, fails twice over.  With a negative polling interval the
    sleep after a false answer raises [ValueError], and that exception
    leaves the call.  With [max_wait = float('inf')] a condition that is
    never true is polled for ever: no number of passes ends the call. *)
Lemma wait_until_other_endings :
  wait_until 1 (answers 0 false) 10 (-1) (boot [] (counting 0))
  = Some (Raise ValueError, snd (answers 0 false (boot [] (counting 0)))) /\
  (forall fuel,
     wait_until fuel (answers 1 false) Inf 0.05 (boot [] (counting 0)) = None).
Proof.
  split; [reflexivity|].
  intros fuel. unfold wait_until, bind, time_time.
  apply wait_loop_never_gives_up; [now left | discriminate | discriminate].
Qed.

Lemma wait_until_terminal_states_witness :
  (0 <= 0.05)%Q /\
  (exists bound m', forall fuel, (bound <= fuel)%nat ->
     wait_until fuel (answers 0 false) 0.2 0.05 (boot [] (counting 0))
     = Some (Raise TimeoutError, m')) /\
  (forall fuel, wait_until fuel (answers 0 false) NaN 0.05 (boot [] (counting 0)) = None).
Proof.
  assert (Hpos : (0 <= 0.05)%Q) by (vm_compute; discriminate).
  assert (Hnever : forall m0 : @Machine page_driver, fst (answers 0 false m0) <> Return true)
    by (intros m0; discriminate).
  split; [exact Hpos|]. split.
  - destruct (proj1 (proj2 (wait_until_terminal_states (answers 0 false) 0.2 0.05
                              (boot [] (counting 0)) Hpos)) 0.05%Q)
      as (bound & r & m' & Hrun & _ & Htimeout).
    + discriminate.
    + discriminate.
    + reflexivity.
    + intros m0. cbn. lra.
    + intros m0. cbn. lra.
    + exists bound, m'. intros fuel Hfuel. rewrite <- (Htimeout Hnever). now apply Hrun.
  - exact (proj2 (proj2 (wait_until_terminal_states (answers 0 false) NaN 0.05
                           (boot [] (counting 0)) Hpos)) (or_intror eq_refl) Hnever).
Defined.

(** C7, as stated, fails: the range (-2, -1) has min <= max, its sample is
    negative, and [time.sleep] raises [ValueError] instead of blocking. *)
Lemma chill_negative_range_raises :
  (-2 <= -1)%Q /\
  chill (-2, -1)%Q (boot [] (counting 5))
  = Some (Raise ValueError, set_rng (snd (next_raw (counting 5))) (boot [] (counting 5))).
Proof. split; [discriminate | vm_compute; reflexivity]. Qed.

Lemma chill_sleeps_within_range_witness :
  let m := boot [] (counting 5) in
  let d := (1 + (3 - 1) * unit_draw (rng m))%Q in
  (0 <= 1)%Q /\ (1 <= 3)%Q /\ (1 <= d)%Q /\ (d <= 3)%Q /\
  chill (1, 3)%Q m
  = Some (Return tt, set_clock (clock m + d)%Q (set_rng (snd (next_raw (rng m))) m)).
Proof.
  cbv zeta.
  assert (H0 : (0 <= 1)%Q) by discriminate.
  assert (H1 : (1 <= 3)%Q) by discriminate.
  pose proof (chill_sleeps_within_range 1 3 (boot [] (counting 5)) H0 H1) as Hc.
  cbv zeta in Hc. destruct Hc as (Hlo & Hhi & Hrun & _).
  repeat split; assumption.
Defined.

Lemma profile_changed_only_by_turbo_witness :
  let m := boot ["go"%string] (counting 3) in
  let op := Click "go" in
  (forall engage, op <> Turbo engage) /\
  conditions_keep_profile op /\
  match perform 0 op m with
  | Some (_, m') => profile (self m') = profile (self m)
  | None => False
  end.
Proof.
  cbv zeta.
  assert (Hop : forall engage, @Click page_driver "go" <> Turbo engage) by discriminate.
  split; [exact Hop|]. split; [exact I|].
  destruct (perform 0 (Click "go") (boot ["go"%string] (counting 3))) as [[r m']|] eqn:Hrun.
  - exact (profile_changed_only_by_turbo 0 (Click "go") _ r m' Hop I Hrun).
  - vm_compute in Hrun. discriminate.
Defined.

Lemma counting_fair (start : nat) : fair 5 5 (tape (counting start)).
Proof.
  intros pos x Hx. exists (Z.to_nat ((x - Z.of_nat pos) mod 5)).
  pose proof (Z.mod_pos_bound (x - Z.of_nat pos) 5 ltac:(lia)) as Hj.
  split; [lia|]. cbn [counting tape].
  rewrite nat_N_Z, Nat2Z.inj_add, Z2Nat.id by lia.
  rewrite Zplus_mod_idemp_r.
  replace (Z.of_nat pos + (x - Z.of_nat pos)) with x by lia.
  apply Z.mod_small. lia.
Qed.

Lemma get_click_list_sparse_witness :
  1 <= 5 /\ 1 <= 1 /\ 1 <= 1 /\ 1 <= 5 /\
  fair 5 5 (tape (rng (boot [] (counting 0)))) /\
  (exists l m', get_click_list 5 5 1 1 (boot [] (counting 0)) = Some (Return l, m')) /\
  (forall fuel (m : @Machine page_driver),
     exists (i : nat) m',
       (i < 5)%nat /\
       get_click_list fuel 5 1 1 m
       = Some (Return (<[i := Keys_SPACE]> (replicate 5 "skip"%string)), m')).
Proof.
  assert (H15 : 1 <= 5) by lia. assert (H11 : 1 <= 1) by lia.
  pose proof (get_click_list_sparse 5 1 1 H15 H11 H11 H15) as (_ & Hends & Hone & _).
  repeat (split; [assumption|]).
  split; [apply counting_fair|].
  split; [apply Hends, counting_fair|].
  exact (Hone eq_refl).
Defined.

(** C10, as stated, fails: with num_options = 0 the count drawn, 1, exceeds
    num_options and the call terminates, by the [ValueError] that
    [random.randint(0, -1)] raises. *)
Lemma get_click_list_no_options_raises :
  let m := boot [] (counting 7) in
  random_randint 1 1 m = Some (Return 1, after_draw m) /\
  0 < 1 /\
  get_click_list 0 0 1 1 m = Some (Raise ValueError, after_draw m).
Proof. cbv zeta. repeat split. Qed.

Lemma get_click_list_never_ends_witness :
  let m := boot [] (counting 7) in
  random_randint 3 3 m = Some (Return 3, after_draw m) /\
  1 <= 2 /\ 2 < 3 /\
  forall fuel, get_click_list fuel 2 3 3 m = None.
Proof.
  cbv zeta.
  assert (H12 : 1 <= 2) by lia. assert (H23 : 2 < 3) by lia.
  split; [reflexivity|]. split; [exact H12|]. split; [exact H23|].
  intros fuel.
  exact (proj1 (get_click_list_never_ends fuel 2 3 3 (boot [] (counting 7)) 3 _ eq_refl)
           H12 H23).
Defined.

Lemma click_elements_clicks_selection_witness :
  let locators := ["//a"; "//b"; "//c"; "//d"]%string in
  let m := boot locators (counting 5) in
  ready XPATH (fun page => page = locators) m /\
  (forall locator, locator ∈ locators ->
     clickable XPATH (fun locator => locator) (fun page => page = locators) locator) /\
  1 <= 1 /\ 1 <= 3 /\ 3 <= Z.of_nat (length locators) /\
  exists options last_option m',
    click_elements locators (Some 3) 1 m = Some (Return last_option, m') /\
    options ⊆+ locators /\
    1 <= Z.of_nat (length options) <= 3 /\
    last options = Some last_option /\
    clicked m' = clicked m ++ map (fun locator => locator) options /\
    (NoDup locators -> NoDup options).
Proof.
  cbv zeta.
  set (locators := ["//a"; "//b"; "//c"; "//d"]%string).
  assert (Hready : ready XPATH (fun page => page = locators) (boot locators (counting 5))).
  { repeat split; discriminate. }
  assert (Hall : forall locator, locator ∈ locators ->
            clickable XPATH (fun locator => locator) (fun page => page = locators) locator).
  { intros locator Hin b ->. cbn.
    rewrite bool_decide_eq_true_2 by assumption. repeat split. }
  assert (H11 : 1 <= 1) by lia. assert (H13 : 1 <= 3) by lia.
  assert (H34 : 3 <= Z.of_nat (length locators)) by (cbn; lia).
  repeat (split; [assumption|]).
  exact (click_elements_clicks_selection XPATH (fun locator => locator)
           (fun page => page = locators) locators (Some 3) 1
           (boot locators (counting 5)) Hready Hall H11 H13 H34).
Defined.

(** * Further properties of the engine *)

Section Deadline.

Context `{WebDriver}.

Implicit Types (m : Machine) (condition : PollCondition) (max_wait : Q).

(** X1: how often the condition is evaluated.  With [max_wait] not
    negative, a positive polling interval and a condition that never sets
    the clock back, the call is over within
    floor(max_wait / polling_interval) + 2 passes through the loop, each of
    which evaluates the condition once: by then it has returned or raised
    [TimeoutError]. *)
Theorem wait_until_passes_bound condition max_wait polling_interval m :
  (0 <= max_wait)%Q -> (0 < polling_interval)%Q ->
  (forall m0, (clock m0 <= clock (snd (condition m0)))%Q) ->
  exists r m',
    (r = Return tt \/ r = Raise TimeoutError) /\
    forall fuel,
      (Z.to_nat (Qfloor (max_wait / polling_interval)) + 2 <= fuel)%nat ->
      wait_until fuel condition max_wait polling_interval m = Some (r, m').
Proof.
  intros Hwait Hpos Hforward.
  set (passes := Qfloor (max_wait / polling_interval)).
  assert (Hpasses : 0 <= passes).
  { change 0 with (Qfloor 0). apply Qfloor_resp_le.
    apply Qle_shift_div_l; [exact Hpos | lra]. }
  assert (Hleft : (max_wait - (clock m - clock m)
                   < Qnat (S (Z.to_nat passes)) * polling_interval)%Q).
  { unfold Qnat. rewrite Nat2Z.inj_succ, Z2Nat.id by exact Hpasses.
    assert (Hfloor : (max_wait / polling_interval < inject_Z (Z.succ passes))%Q).
    { unfold Z.succ. apply Qlt_floor. }
    assert (Hsplit : (max_wait == max_wait / polling_interval * polling_interval)%Q)
      by (field; lra).
    apply (Qmult_lt_r _ _ polling_interval Hpos) in Hfloor.
    rewrite <- Hsplit in Hfloor. lra. }
  destruct (wait_loop_finishes condition (clock m) max_wait polling_interval
              polling_interval ltac:(lra) Hforward
              ltac:(intros m0; specialize (Hforward m0); lra)
              (S (Z.to_nat passes)) m Hleft) as (r & m' & Hrun & Hends & _).
  exists r, m'. split; [exact Hends|]. intros fuel Hfuel.
  rewrite wait_until_unfold.
  replace fuel with (S (S (Z.to_nat passes)) + (fuel - S (S (Z.to_nat passes))))%nat
    by lia.
  apply Hrun.
Qed.

Lemma wait_loop_stable (P : Machine -> Prop) condition start_time max_wait
    polling_interval fuel :
  (forall t m0, P m0 -> P (set_clock t m0)) ->
  (forall m0, P m0 -> P (snd (condition m0))) ->
  forall m r m',
    P m ->
    wait_loop fuel condition start_time max_wait polling_interval m = Some (r, m') ->
    P m'.
Proof.
  intros Hclock Hcond.
  induction fuel as [|fuel IH]; intros m r m' Hm Hrun; [discriminate|].
  rewrite wait_loop_pass in Hrun. specialize (Hcond m Hm).
  destruct (condition m) as [o m1]; cbn [snd] in Hcond.
  assert (Hrest :
    (if Qgt_bool (clock m1 - start_time) max_wait then Some (Raise TimeoutError, m1)
     else if Qgt_bool 0 polling_interval then Some (Raise ValueError, m1)
     else wait_loop fuel condition start_time max_wait polling_interval
            (set_clock (clock m1 + polling_interval)%Q m1)) = Some (r, m') -> P m').
  { intros Hrest.
    destruct (Qgt_bool (clock m1 - start_time) max_wait);
      [injection Hrest as <- <-; assumption|].
    destruct (Qgt_bool 0 polling_interval);
      [injection Hrest as <- <-; assumption|].
    eapply IH; [|exact Hrest]. now apply Hclock. }
  destruct o as [[|]|e]; [|now apply Hrest..].
  injection Hrun as <- <-. now apply Hclock.
Qed.

(** X2: [wait_until] itself only reads the clock and sleeps: when the
    condition leaves the attributes of [self], the random source and the
    click log alone, so does the call, however it ends. *)
Theorem wait_until_only_sleeps condition max_wait polling_interval fuel m r m' :
  (forall m0, self (snd (condition m0)) = self m0 /\
              rng (snd (condition m0)) = rng m0 /\
              clicked (snd (condition m0)) = clicked m0) ->
  wait_until fuel condition max_wait polling_interval m = Some (r, m') ->
  self m' = self m /\ rng m' = rng m /\ clicked m' = clicked m.
Proof.
  intros Hcond Hrun. rewrite wait_until_unfold in Hrun.
  apply (wait_loop_stable
           (fun m0 => self m0 = self m /\ rng m0 = rng m /\ clicked m0 = clicked m)
           condition (clock m) max_wait polling_interval fuel) with (m := m) (r := r);
    [ | | repeat split | exact Hrun].
  - intros t m0 Hm0. exact Hm0.
  - intros m0 (Hs & Hr & Hc). destruct (Hcond m0) as (Hs' & Hr' & Hc').
    repeat split; congruence.
Qed.

End Deadline.

Section Edges.

Context `{WebDriver}.

Implicit Types (m : Machine) (locators options : list string).

Lemma only_drew_refl m : only_drew m m.
Proof. repeat split. lia. Qed.

Lemma only_drew_after_draw m : only_drew m (after_draw m).
Proof. repeat split. cbn. lia. Qed.

Lemma only_drew_trans m1 m2 m3 : only_drew m1 m2 -> only_drew m2 m3 -> only_drew m1 m3.
Proof.
  intros (Hs & Hc & Hl & Ht & Hn) (Hs' & Hc' & Hl' & Ht' & Hn').
  repeat split; try congruence. lia.
Qed.

Lemma randint_only_draws a b m r m' :
  random_randint a b m = Some (r, m') -> only_drew m m'.
Proof.
  destruct (Z_le_gt_dec a b) as [Hab|Hab].
  - rewrite randint_run by assumption. intros [= <- <-]. apply only_drew_after_draw.
  - rewrite randint_empty by lia. intros [= <- <-]. apply only_drew_refl.
Qed.

Lemma unused_index_only_draws num_options selected fuel : forall index m r m',
  unused_index fuel num_options selected index m = Some (r, m') -> only_drew m m'.
Proof.
  induction fuel as [|fuel IH]; intros index m r m' Hrun;
    cbn [unused_index] in Hrun; case_bool_decide as Hin;
    try discriminate; try (injection Hrun as <- <-; apply only_drew_refl).
  unfold bind in Hrun.
  destruct (random_randint 0 (num_options - 1) m) as [[[index'|e] m1]|] eqn:Hdraw;
    [| |discriminate].
  - apply randint_only_draws in Hdraw. apply IH in Hrun.
    eapply only_drew_trans; eassumption.
  - injection Hrun as <- <-. eapply randint_only_draws, Hdraw.
Qed.

Lemma list_setitem_pure {A} (l : list A) index x m r m' :
  list_setitem l index x m = Some (r, m') -> m' = m.
Proof.
  unfold list_setitem. cbv zeta.
  destruct ((_ <? 0) || _); intros [= <- <-]; reflexivity.
Qed.

Lemma choose_only_draws num_options fuel count : forall click_list selected m r m',
  choose count fuel num_options click_list selected m = Some (r, m') -> only_drew m m'.
Proof.
  induction count as [|count IH]; intros click_list selected m r m' Hrun;
    cbn [choose] in Hrun.
  - injection Hrun as <- <-. apply only_drew_refl.
  - unfold bind at 1 in Hrun.
    destruct (random_randint 0 (num_options - 1) m) as [[[index|e] m1]|] eqn:Hdraw;
      [| |discriminate].
    + apply randint_only_draws in Hdraw. unfold bind at 1 in Hrun.
      destruct (unused_index fuel num_options selected index m1)
        as [[[found|e] m2]|] eqn:Hfind; [| |discriminate].
      * apply unused_index_only_draws in Hfind. unfold bind in Hrun.
        destruct (list_setitem click_list found Keys_SPACE m2)
          as [[[l|e] m3]|] eqn:Hset; [| |discriminate].
        -- apply list_setitem_pure in Hset. subst m3. apply IH in Hrun.
           eauto using only_drew_trans.
        -- apply list_setitem_pure in Hset. subst m3. injection Hrun as <- <-.
           eauto using only_drew_trans.
      * injection Hrun as <- <-. apply unused_index_only_draws in Hfind.
        eauto using only_drew_trans.
    + injection Hrun as <- <-. eapply randint_only_draws, Hdraw.
Qed.

(** X3: [get_click_list] builds its list without touching anything but
    the random source: however the call ends, the attributes of [self],
    the clock and the click log are as before (it neither sleeps nor clicks),
    and the random source has only moved forward. *)
Theorem get_click_list_only_draws fuel num_options max_choices min_choices m r m' :
  get_click_list fuel num_options max_choices min_choices m = Some (r, m') ->
  only_drew m m'.
Proof.
  unfold get_click_list. cbv zeta. unfold bind. intros Hrun.
  destruct (random_randint min_choices max_choices m) as [[[count|e] m1]|] eqn:Hdraw;
    [| |discriminate].
  - apply randint_only_draws in Hdraw. apply choose_only_draws in Hrun.
    eapply only_drew_trans; eassumption.
  - injection Hrun as <- <-. eapply randint_only_draws, Hdraw.
Qed.

(** X4: the bounds of [get_click_list] at their edges: with max_choices
    below min_choices the call raises [ValueError] before anything is
    drawn; with min_choices <= max_choices <= 0 no slot is chosen and the
    list returned is 'skip' throughout, of length num_options (empty for a
    negative num_options). *)
Theorem get_click_list_edge_bounds fuel num_options max_choices min_choices m :
  (max_choices < min_choices ->
   get_click_list fuel num_options max_choices min_choices m
   = Some (Raise ValueError, m)) /\
  (min_choices <= max_choices -> max_choices <= 0 ->
   get_click_list fuel num_options max_choices min_choices m
   = Some (Return (replicate (Z.to_nat num_options) "skip"%string), after_draw m)).
Proof.
  split.
  - intros Hbad. unfold get_click_list. cbv zeta. unfold bind.
    now rewrite randint_empty.
  - intros Hle Hmax. unfold get_click_list. cbv zeta. unfold bind.
    rewrite randint_run by assumption.
    pose proof (randint_bounds min_choices max_choices (raw m) Hle) as [_ Hhi].
    replace (Z.to_nat _) with O by lia. reflexivity.
Qed.

Lemma find_pure locator m r m' : find locator m = Some (r, m') -> m' = m.
Proof.
  unfold find, bind, attr, driver_find, ret.
  repeat (destruct (String.eqb (locator_method (self m)) _);
          [destruct (find_element _ locator (browser (self m)));
           intros [= <- <-]; reflexivity|]).
  intros [= <- <-]. reflexivity.
Qed.

Lemma find_unknown_method locator m :
  strategy (locator_method (self m)) = None ->
  find locator m = Some (Return None, m).
Proof.
  unfold strategy, find, bind, attr, ret. intros Hhow.
  repeat (destruct (String.eqb (locator_method (self m)) _); [discriminate|]).
  reflexivity.
Qed.

(** X5: with a locator method that is none of 'xpath', 'id', 'className',
    'name' and 'cssSelector', [find] asks the driver nothing and returns
    [None], and [click] raises [AttributeError] on it, leaving everything as
    it was. *)
Theorem click_unknown_method locator m :
  strategy (locator_method (self m)) = None ->
  find locator m = Some (Return None, m) /\
  click locator m = Some (Raise AttributeError, m).
Proof.
  intros Hhow. split; [now apply find_unknown_method|].
  unfold click, bind. now rewrite find_unknown_method.
Qed.

(** X6: a click that fails leaves no trace in the log and is not followed
    by the wait: when the driver does not find the element, [click] raises
    the driver's exception with the machine as it was; when the element is
    found and clicking it raises, only the page may have changed. *)
Theorem click_failure_skips_wait how locator m :
  strategy (locator_method (self m)) = Some how ->
  (forall e, find_element how locator (browser (self m)) = Raise e ->
     click locator m = Some (Raise e, m)) /\
  (forall element e b,
     find_element how locator (browser (self m)) = Return element ->
     element_click element (browser (self m)) = (Raise e, b) ->
     click locator m = Some (Raise e, set_self (set_browser b (self m)) m)).
Proof.
  intros Hhow. split.
  - intros e Hfind. unfold click, bind. rewrite (find_run how) by assumption.
    now rewrite Hfind.
  - intros element e b Hfind Hclick. unfold click. unfold bind at 1.
    rewrite (find_run how) by assumption. rewrite Hfind.
    unfold bind, driver_click. now rewrite Hclick.
Qed.

Lemma random_sample_inv {A} (population : list A) k m r m' :
  random_sample population k m = Some (r, m') ->
  match r with
  | Return chosen =>
      0 <= k <= Z.of_nat (length population) /\ Z.of_nat (length chosen) = k /\
      clicked m' = clicked m /\ self m' = self m
  | Raise e =>
      e = ValueError /\ (k < 0 \/ Z.of_nat (length population) < k) /\ m' = m
  end.
Proof.
  intros Hrun.
  destruct (Z_lt_ge_dec k 0) as [Hneg|Hnonneg];
    [|destruct (Z_lt_ge_dec (Z.of_nat (length population)) k) as [Hbig|Hfit]].
  - unfold random_sample in Hrun.
    destruct (Z.ltb_spec k 0) as [_|?]; [|lia]. cbn [orb] in Hrun.
    injection Hrun as <- <-. auto.
  - unfold random_sample in Hrun.
    destruct (Z.ltb_spec k 0) as [?|_]; [lia|].
    destruct (Z.ltb_spec (Z.of_nat (length population)) k) as [_|?]; [|lia].
    cbn [orb] in Hrun. injection Hrun as <- <-. auto.
  - destruct (random_sample_run population k m ltac:(lia))
      as (chosen & m1 & Hrun' & _ & Hlen & Hself & Hclicked).
    rewrite Hrun' in Hrun. injection Hrun as <- <-. repeat split; (assumption || lia).
Qed.

Lemma chill_keeps_log min_max m r m' :
  chill min_max m = Some (r, m') -> clicked m' = clicked m /\ self m' = self m.
Proof.
  destruct min_max as [a b]. rewrite chill_run. cbv zeta.
  destruct (Qgt_bool 0 _); intros [= <- <-]; split; reflexivity.
Qed.

Lemma click_grows locator m r m' :
  click locator m = Some (r, m') ->
  exists added, clicked m' = clicked m ++ added /\ (length added <= 1)%nat.
Proof.
  unfold click. unfold bind at 1.
  destruct (find locator m) as [[[[element|]|e] m1]|] eqn:Hfind; [| | |discriminate];
    try (apply find_pure in Hfind; subst m1).
  - unfold bind at 1, driver_click.
    destruct (element_click element (browser (self m))) as [[[]|e] b].
    + unfold bind at 1, attr. cbn [self]. unfold bind.
      match goal with
      | |- match chill ?w ?m2 with _ => _ end = _ -> _ =>
          destruct (chill w m2) as [[[[]|e] m3]|] eqn:Hchill; [| |discriminate];
            apply chill_keeps_log in Hchill as [Hlog _]
      end; intros [= <- <-]; exists [element]; rewrite Hlog; split; (reflexivity || cbn; lia).
    + intros [= <- <-]. exists []. cbn. rewrite app_nil_r. split; [reflexivity | lia].
  - intros [= <- <-]. exists []. rewrite app_nil_r. split; [reflexivity | cbn; lia].
  - intros [= <- <-]. exists []. rewrite app_nil_r. split; [reflexivity | cbn; lia].
Qed.

Lemma click_each_grows options : forall element m r m',
  click_each options element m = Some (r, m') ->
  exists added, clicked m' = clicked m ++ added /\ (length added <= length options)%nat.
Proof.
  induction options as [|option rest IH]; intros element m r m' Hrun; cbn [click_each] in Hrun.
  - injection Hrun as <- <-. exists []. rewrite app_nil_r. split; [reflexivity | cbn; lia].
  - unfold bind in Hrun.
    destruct (click option m) as [[[e|x] m1]|] eqn:Hclick; [| |discriminate].
    + apply click_grows in Hclick as (first & Hfirst & Hone).
      apply IH in Hrun as (more & Hmore & Hlen).
      exists (first ++ more). rewrite Hmore, Hfirst, <- app_assoc.
      split; [reflexivity|]. rewrite length_app. cbn [length]. lia.
    + injection Hrun as <- <-.
      apply click_grows in Hclick as (first & Hfirst & Hone).
      exists first. split; [assumption | cbn [length]; lia].
Qed.

(** X7: [click_elements] with bounds it cannot serve.  When the maximum it
    works with (len(locators) when max_selections is not given or 0) is below
    min_selections, as for an empty list with the default min_selections of
    1, it raises [ValueError] at once; when the count it draws is negative
    or larger than the list, [random.sample] raises [ValueError]; and when
    the count drawn is 0 the loop body never runs and the [return] raises
    [UnboundLocalError].  In each case nothing has been clicked. *)
Theorem click_elements_rejects_bounds locators max_selections min_selections m :
  (effective_max locators max_selections < min_selections ->
   click_elements locators max_selections min_selections m = Some (Raise ValueError, m)) /\
  (forall count m1,
     random_randint min_selections (effective_max locators max_selections) m
     = Some (Return count, m1) ->
     clicked m1 = clicked m /\
     (count < 0 \/ Z.of_nat (length locators) < count ->
      click_elements locators max_selections min_selections m
      = Some (Raise ValueError, m1)) /\
     (count = 0 ->
      click_elements locators max_selections min_selections m
      = Some (Raise UnboundLocalError, m1))).
Proof.
  split.
  - intros Hbad. unfold click_elements. cbv zeta. fold (effective_max locators max_selections).
    unfold bind. now rewrite randint_empty.
  - intros count m1 Hdraw. split; [|split].
    + apply randint_only_draws in Hdraw. apply Hdraw.
    + intros Hcount. unfold click_elements. cbv zeta.
      fold (effective_max locators max_selections). unfold bind at 1. rewrite Hdraw.
      unfold bind at 1, random_sample.
      destruct Hcount as [Hneg|Hbig].
      * destruct (Z.ltb_spec count 0) as [_|?]; [reflexivity | lia].
      * destruct (Z.ltb_spec count 0) as [?|_]; [reflexivity|].
        destruct (Z.ltb_spec (Z.of_nat (length locators)) count) as [_|?];
          [reflexivity | lia].
    + intros ->. unfold click_elements. cbv zeta.
      fold (effective_max locators max_selections). unfold bind at 1. rewrite Hdraw.
      unfold bind at 1, random_sample.
      destruct (Z.ltb_spec (Z.of_nat (length locators)) 0) as [?|_]; [lia|].
      reflexivity.
Qed.

(** X8: however a call of [click_elements] ends, the elements it clicked
    are added to the end of the click log, and they are at most
    max_selections (len(locators) when that is not given or 0), and at most
    len(locators), many. *)
Theorem click_elements_clicks_at_most_max locators max_selections min_selections m r m' :
  click_elements locators max_selections min_selections m = Some (r, m') ->
  exists added,
    clicked m' = clicked m ++ added /\
    Z.of_nat (length added) <= Z.max 0 (effective_max locators max_selections) /\
    (length added <= length locators)%nat.
Proof.
  unfold click_elements. cbv zeta. fold (effective_max locators max_selections).
  set (top := effective_max locators max_selections).
  assert (Hnone : forall m0, clicked m0 = clicked m ->
            exists added, clicked m0 = clicked m ++ added /\
              Z.of_nat (length added) <= Z.max 0 top /\ (length added <= length locators)%nat).
  { intros m0 Hlog. exists []. rewrite app_nil_r. cbn [length]. split; [assumption|lia]. }
  unfold bind at 1.
  destruct (random_randint min_selections top m) as [[[count|e] m1]|] eqn:Hdraw;
    [| |discriminate].
  - assert (Hcount : count <= top).
    { destruct (Z_le_gt_dec min_selections top) as [Hle|Hgt].
      - rewrite randint_run in Hdraw by assumption. injection Hdraw as <- _.
        now apply randint_bounds.
      - rewrite randint_empty in Hdraw by lia. discriminate. }
    apply randint_only_draws in Hdraw as (_ & _ & Hlog1 & _).
    unfold bind at 1.
    destruct (random_sample locators count m1) as [[[options|e] m2]|] eqn:Hsample;
      [| |discriminate]; apply random_sample_inv in Hsample.
    + destruct Hsample as (Hfit & Hlen & Hlog2 & _). unfold bind.
      destruct (click_each options None m2) as [[[element|e] m3]|] eqn:Hclicks;
        [| |discriminate];
        apply click_each_grows in Hclicks as (added & Hadded & Hmany);
        (assert (Hend : clicked m3 = clicked m ++ added) by congruence);
        [destruct element|]; intros [= <- <-]; exists added;
        (split; [assumption | lia]).
    + destruct Hsample as (_ & _ & ->). intros [= <- <-]. now apply Hnone.
  - intros [= <- <-]. apply Hnone. apply randint_only_draws in Hdraw. apply Hdraw.
Qed.

(** X9: [chill] takes its two bounds in either order: for bounds that are
    not negative it returns after sleeping a delay that lies between them. *)
Theorem chill_accepts_either_order (a b : Q) m :
  (0 <= a)%Q -> (0 <= b)%Q ->
  exists d : Q,
    chill (a, b) m = Some (Return tt, set_clock (clock m + d)%Q (after_draw m)) /\
    (a <= b -> a <= d /\ d <= b)%Q /\
    (b <= a -> b <= d /\ d <= a)%Q.
Proof.
  intros Ha Hb. exists (a + (b - a) * unit_draw (rng m))%Q.
  destruct (unit_draw_bounds (rng m)) as [Hu0 Hu1].
  split; [|split].
  - rewrite chill_run. cbv zeta.
    assert (Hd : Qgt_bool 0 (a + (b - a) * unit_draw (rng m)) = false)
      by (apply Qgt_bool_false; nra).
    now rewrite Hd.
  - intros Hab. split; nra.
  - intros Hba. split; nra.
Qed.

(** X10: what a successful [click] leaves: the element is logged once, the
    page is the one the driver's click left, and the call has slept its
    wait before it returns, so that the clock has moved on by at least the
    lower bound of [after_click_wait] (0.25 seconds under the human
    profile), for a range whose bounds are not negative and in order. *)
Theorem click_waits_at_least how locator element b m :
  ordered (after_click_wait (self m)) ->
  strategy (locator_method (self m)) = Some how ->
  find_element how locator (browser (self m)) = Return element ->
  element_click element (browser (self m)) = (Return tt, b) ->
  exists m',
    click locator m = Some (Return element, m') /\
    clicked m' = clicked m ++ [element] /\
    self m' = set_browser b (self m) /\
    (clock m + fst (after_click_wait (self m)) <= clock m')%Q.
Proof.
  intros [Hlow Horder] Hhow Hfind Hclick. unfold click. unfold bind at 1.
  rewrite (find_run how) by assumption. rewrite Hfind.
  unfold bind at 1, driver_click. rewrite Hclick.
  unfold bind at 1, attr. cbn [self]. unfold bind.
  set (m1 := {| self := set_browser b (self m); clock := clock m; rng := rng m;
                clicked := clicked m ++ [element] |}).
  destruct (unit_draw_bounds (rng m1)) as [Hu0 Hu1].
  change (after_click_wait (set_browser b (self m))) with (after_click_wait (self m)).
  destruct (after_click_wait (self m)) as [lo hi]. cbn [fst snd] in *.
  rewrite chill_run. cbv zeta.
  assert (Hd : Qgt_bool 0 (lo + (hi - lo) * unit_draw (rng m1)) = false)
    by (apply Qgt_bool_false; nra).
  rewrite Hd. eexists. split; [reflexivity|]. split; [reflexivity|].
  split; [reflexivity|]. cbn [clock set_clock set_rng m1]. nra.
Qed.

End Edges.

(** * Typing, tabs and frames *)

Section Typing.

Context `{FormDriver}.

Implicit Types (s : Session) (m : Machine) (data : pystr).

(** ** How calls end *)

Lemma ends_ret {A} (a : A) s post : post (Return a) s -> ends (retS a) s post.
Proof. intros Hpost. exists (Return a), s. now split. Qed.

Lemma ends_raise {A} (e : exn) s (post : outcome A -> Session -> Prop) :
  post (Raise e) s -> ends (raiseS e) s post.
Proof. intros Hpost. exists (Raise e), s. now split. Qed.

Lemma ends_bind {A B} (c : Act A) (k : A -> Act B) s post :
  ends c s (fun r s1 =>
    match r with
    | Return a => ends (k a) s1 post
    | Raise e => post (Raise e) s1
    end) ->
  ends (bindS c k) s post.
Proof.
  intros (r & s1 & Hrun & Hrest). unfold ends, bindS. rewrite Hrun.
  destruct r as [a|e]; [exact Hrest|]. now exists (Raise e), s1.
Qed.

Lemma ends_weaken {A} (c : Act A) s (post post' : outcome A -> Session -> Prop) :
  ends c s post -> (forall r s', post r s' -> post' r s') -> ends c s post'.
Proof. intros (r & s' & Hrun & Hpost) Himp. exists r, s'. auto. Qed.

(** ** What is kept *)

Lemma settings_kept_refl s : settings_kept s s.
Proof. exists (browser (self (engine s))). now destruct (self (engine s)). Qed.

Lemma settings_kept_trans s1 s2 s3 :
  settings_kept s1 s2 -> settings_kept s2 s3 -> settings_kept s1 s3.
Proof. intros [b Hb] [b' Hb']. exists b'. now rewrite Hb', Hb. Qed.

Lemma settings_kept_fields s s' :
  settings_kept s s' ->
  profile (self (engine s')) = profile (self (engine s)) /\
  one_key_at_a_time (self (engine s')) = one_key_at_a_time (self (engine s)) /\
  turbo_engaged (self (engine s')) = turbo_engaged (self (engine s)) /\
  locator_method (self (engine s')) = locator_method (self (engine s)).
Proof. intros [b ->]. repeat split. Qed.

Lemma sent_refl s : sent s s [].
Proof.
  split; [now rewrite app_nil_r|]. split; [reflexivity | apply settings_kept_refl].
Qed.

Lemma sent_trans s1 s2 s3 chunks chunks' :
  sent s1 s2 chunks -> sent s2 s3 chunks' -> sent s1 s3 (chunks ++ chunks').
Proof.
  intros (Ht & Hi & Hk) (Ht' & Hi' & Hk'). split; [|split].
  - now rewrite Ht', Ht, app_assoc.
  - congruence.
  - eapply settings_kept_trans; eassumption.
Qed.

Lemma sent_step s1 s2 s3 chunks :
  sent s1 s2 [] -> sent s2 s3 chunks -> sent s1 s3 chunks.
Proof. intros H12 H23. exact (sent_trans _ _ _ _ _ H12 H23). Qed.

Lemma sent_then s1 s2 s3 chunks :
  sent s1 s2 chunks -> sent s2 s3 [] -> sent s1 s3 chunks.
Proof.
  intros H12 H23. pose proof (sent_trans _ _ _ _ _ H12 H23) as Hall.
  now rewrite app_nil_r in Hall.
Qed.

Lemma sent_engine s m' :
  (exists b, self m' = set_browser b (self (engine s))) -> sent s (set_engine m' s) [].
Proof.
  intros Hkept. split; [cbn; now rewrite app_nil_r|]. split; [reflexivity | exact Hkept].
Qed.

Lemma ends_attr {A} (field : User -> A) s :
  ends (lift (attr field)) s (fun r s' => r = Return (field (self (engine s))) /\ s' = s).
Proof.
  exists (Return (field (self (engine s)))), s. split; [|auto].
  unfold lift, attr. now destruct s.
Qed.

Lemma ends_pause (wait : User -> range) s :
  ends (pause wait) s (fun _ s' => sent s s' []).
Proof.
  unfold ends, pause, lift, bind, attr. cbv beta iota.
  destruct (wait (self (engine s))) as [a b]. rewrite chill_run. cbv zeta.
  destruct (Qgt_bool 0 _); eexists _, _; (split; [reflexivity|]);
    apply sent_engine; exists (browser (self (engine s)));
    cbn; now destruct (self (engine s)).
Qed.

Lemma ends_find locator s :
  ends (lift (find locator)) s (fun _ s' => s' = s).
Proof.
  unfold ends, lift.
  destruct (find locator (engine s)) as [[r m']|] eqn:Hfind.
  - apply find_pure in Hfind. subst m'. exists r, s. split; [|reflexivity].
    now destruct s.
  - exfalso. revert Hfind. unfold find, bind, attr, driver_find, ret.
    repeat (destruct (String.eqb _ _);
            [destruct (find_element _ locator _); discriminate|]).
    discriminate.
Qed.

Lemma click_ends locator m :
  exists r m', click locator m = Some (r, m') /\
    exists b, self m' = set_browser b (self m).
Proof.
  assert (Hsame : exists b, self m = set_browser b (self m))
    by (exists (browser (self m)); now destruct (self m)).
  unfold click. unfold bind at 1.
  destruct (find locator m) as [[[[element|]|e] m1]|] eqn:Hfind.
  - apply find_pure in Hfind. subst m1. unfold bind at 1, driver_click.
    destruct (element_click element (browser (self m))) as [[[]|e] b].
    + unfold bind at 1, attr. cbn [self]. unfold bind.
      destruct (after_click_wait (set_browser b (self m))) as [lo hi].
      rewrite chill_run. cbv zeta.
      destruct (Qgt_bool 0 _); eexists _, _; (split; [reflexivity|]); now exists b.
    + eexists _, _. split; [reflexivity|]. now exists b.
  - apply find_pure in Hfind. subst m1. eexists _, _. split; [reflexivity | exact Hsame].
  - apply find_pure in Hfind. subst m1. eexists _, _. split; [reflexivity | exact Hsame].
  - exfalso. revert Hfind. unfold find, bind, attr, driver_find, ret.
    repeat (destruct (String.eqb _ _);
            [destruct (find_element _ locator _); discriminate|]).
    discriminate.
Qed.

Lemma ends_click locator s :
  ends (lift (click locator)) s (fun _ s' => sent s s' []).
Proof.
  destruct (click_ends locator (engine s)) as (r & m' & Hrun & Hkept).
  exists r, (set_engine m' s). unfold lift. rewrite Hrun.
  split; [reflexivity | now apply sent_engine].
Qed.

Lemma ends_randint a b s :
  ends (lift (random_randint a b)) s (fun r s' =>
    sent s s' [] /\
    match r with
    | Return n => a <= n <= b
    | Raise _ => True
    end).
Proof.
  assert (Hsame : exists p, self (engine s) = set_browser p (self (engine s)))
    by (exists (browser (self (engine s))); now destruct (self (engine s))).
  unfold ends, lift. destruct (Z_le_gt_dec a b) as [Hab|Hab].
  - rewrite randint_run by assumption. eexists _, _. split; [reflexivity|].
    split; [now apply sent_engine | now apply randint_bounds].
  - rewrite randint_empty by lia. eexists _, _. split; [reflexivity|].
    split; [now apply sent_engine | exact I].
Qed.

Lemma sent_page (b : Browser) s : sent s (set_page b s) [].
Proof. apply sent_engine. now exists b. Qed.

Lemma ends_drive {A} (call : Browser -> outcome A * Browser) s :
  ends (drive call) s (fun r s' =>
    r = fst (call (page s)) /\ s' = set_page (snd (call (page s))) s).
Proof. unfold ends, drive. destruct (call (page s)) as [r b]. now exists r, (set_page b s). Qed.

Lemma ends_ask {A} (call : Browser -> outcome A) s :
  ends (ask call) s (fun r s' => r = call (page s) /\ s' = s).
Proof. now exists (call (page s)), s. Qed.

Lemma ends_send element keys s :
  ends (send element keys) s (fun r s' =>
    match r with
    | Return _ => exists e, element = Some e /\ sent s s' [(e, keys)]
    | Raise _ => sent s s' []
    end).
Proof.
  destruct element as [e|]; [|apply ends_raise, sent_refl].
  unfold ends, send. destruct (element_send_keys e keys (page s)) as [[[]|x] b].
  - eexists _, _. split; [reflexivity|]. exists e. split; [reflexivity|].
    split; [reflexivity|]. split; [reflexivity | now exists b].
  - eexists _, _. split; [reflexivity | apply sent_page].
Qed.

Lemma ends_clear_element element s :
  ends (clear_element element) s (fun _ s' => sent s s' []).
Proof.
  destruct element as [e|]; [|apply ends_raise, sent_refl].
  eapply ends_weaken; [apply ends_drive|]. intros r s' [_ ->]. apply sent_page.
Qed.

(** ** Typing *)

Lemma keys_of_singletons (chunks : list (WebElement * pystr)) data :
  map snd chunks = map (fun ch => [ch]) data -> keys_of chunks = data.
Proof.
  unfold keys_of. intros ->. induction data as [|ch rest IH]; [reflexivity|].
  cbn. now rewrite IH.
Qed.

Lemma ends_type_keys element : forall data s,
  ends (type_keys element data) s (fun r s' =>
    exists chunks done,
      sent s s' chunks /\ done `prefix_of` data /\
      map snd chunks = map (fun ch => [ch]) done /\
      Forall (fun c => element = Some c.1) chunks /\
      match r with
      | Return _ => done = data
      | Raise _ => True
      end).
Proof.
  induction data as [|ch rest IH]; intros s; cbn [type_keys].
  - apply ends_ret. exists [], []. split; [apply sent_refl|].
    split; [apply prefix_nil|]. now split.
  - apply ends_bind. eapply ends_weaken; [apply ends_send|].
    intros [[]|x] s1.
    + intros (e & -> & Hkey). apply ends_bind.
      eapply ends_weaken; [apply ends_pause|]. intros [[]|x] s2 Hpause.
      * eapply ends_weaken; [apply IH|].
        intros r s3 (chunks & done & Hrest & Hpre & Hmap & Hall & Hend).
        exists ((e, [ch]) :: chunks), (ch :: done). split; [|split; [|split; [|split]]].
        -- exact (sent_trans _ _ _ _ _ (sent_then _ _ _ _ Hkey Hpause) Hrest).
        -- now apply prefix_cons.
        -- cbn. now rewrite Hmap.
        -- constructor; [reflexivity | exact Hall].
        -- destruct r; [now subst done | exact I].
      * exists [(e, [ch])], [ch]. split; [|split; [|split; [|split]]].
        -- exact (sent_then _ _ _ _ Hkey Hpause).
        -- apply prefix_cons, prefix_nil.
        -- reflexivity.
        -- now constructor.
        -- exact I.
    + intros Hnone. exists [], []. split; [exact Hnone|].
      split; [apply prefix_nil|]. now split.
Qed.

Lemma ends_locate locator (click_first : bool) s :
  ends (if click_first then bindS (lift (click locator)) (fun e => retS (Some e))
        else lift (find locator)) s
       (fun _ s' => sent s s' []).
Proof.
  destruct click_first.
  - apply ends_bind. eapply ends_weaken; [apply ends_click|].
    intros [e|x] s1 Hclick; [now apply ends_ret | exact Hclick].
  - eapply ends_weaken; [apply ends_find|]. intros r s' ->. apply sent_refl.
Qed.

Lemma ends_send_keys locator data (click_first clear_first : bool) s :
  ends (send_keys locator data click_first clear_first) s (fun r s' =>
    exists chunks,
      sent s s' chunks /\
      match r with
      | Return element =>
          Forall (fun c => element = Some c.1) chunks /\
          map snd chunks =
            if one_key_at_a_time (self (engine s)) then map (fun ch => [ch]) data
            else [data]
      | Raise _ => keys_of chunks `prefix_of` data
      end).
Proof.
  assert (Hnothing : forall s', sent s s' [] ->
            exists chunks, sent s s' chunks /\ keys_of chunks `prefix_of` data).
  { intros s' Hsent. exists []. split; [exact Hsent | apply prefix_nil]. }
  unfold send_keys. apply ends_bind. eapply ends_weaken; [apply ends_locate|].
  intros [element|x] s1 Hlocate; [|now apply Hnothing].
  apply ends_bind.
  apply ends_weaken with (post := fun _ s2 => sent s1 s2 []).
  { destruct clear_first; [|apply ends_ret, sent_refl].
    apply ends_bind. eapply ends_weaken; [apply ends_clear_element|].
    intros [[]|x] s2 Hclear; [|exact Hclear].
    eapply ends_weaken; [apply ends_pause|]. intros r s3 Hpause.
    exact (sent_step _ _ _ _ Hclear Hpause). }
  intros [[]|x] s2 Hclear; [|apply Hnothing; exact (sent_step _ _ _ _ Hlocate Hclear)].
  pose proof (sent_step _ _ _ _ Hlocate Hclear) as Hready.
  apply ends_bind. eapply ends_weaken; [apply ends_attr|].
  intros r s3 [-> ->].
  destruct Hready as (Hlog & Htab & Hkept).
  destruct (settings_kept_fields _ _ Hkept) as (_ & -> & _).
  assert (Hready : sent s s2 []) by now repeat split.
  apply ends_bind. destruct (one_key_at_a_time (self (engine s))).
  - eapply ends_weaken; [apply ends_type_keys|].
    intros r s3 (chunks & done & Hsent & Hpre & Hmap & Hall & Hend).
    pose proof (sent_step _ _ _ _ Hready Hsent) as Hso_far.
    destruct r as [[]|x].
    + subst done. apply ends_bind. eapply ends_weaken; [apply ends_pause|].
      intros [[]|x] s4 Hpause.
      * apply ends_ret. exists chunks. split; [exact (sent_then _ _ _ _ Hso_far Hpause)|].
        now split.
      * exists chunks. split; [exact (sent_then _ _ _ _ Hso_far Hpause)|].
        now rewrite (keys_of_singletons chunks data Hmap).
    + exists chunks. split; [exact Hso_far|].
      now rewrite (keys_of_singletons chunks done Hmap).
  - eapply ends_weaken; [apply ends_send|].
    intros [[]|x] s3.
    + intros (e & -> & Hsent).
      pose proof (sent_step _ _ _ _ Hready Hsent) as Hso_far.
      apply ends_bind. eapply ends_weaken; [apply ends_pause|].
      intros [[]|x] s4 Hpause.
      * apply ends_ret. exists [(e, data)].
        split; [exact (sent_then _ _ _ _ Hso_far Hpause)|].
        split; [now constructor | reflexivity].
      * exists [(e, data)]. split; [exact (sent_then _ _ _ _ Hso_far Hpause)|].
        unfold keys_of. cbn. now rewrite app_nil_r.
    + intros Hsent. apply Hnothing. exact (sent_step _ _ _ _ Hready Hsent).
Qed.

(** X11: what [send_keys] types.  The call always ends; the user stays on
    the tab and the attributes of [self] are kept but for the page.  When it
    returns, the element returned has received exactly [data]: one key per
    call of the driver, in order, when [one_key_at_a_time] is set, and in a
    single call when it is not.  When it raises, what has been typed is
    some first part of [data]. *)
Theorem send_keys_types_data locator data (click_first clear_first : bool) s :
  ends (send_keys locator data click_first clear_first) s (fun r s' =>
    exists chunks,
      sent s s' chunks /\
      match r with
      | Return element =>
          Forall (fun c => element = Some c.1) chunks /\
          map snd chunks =
            if one_key_at_a_time (self (engine s)) then map (fun ch => [ch]) data
            else [data]
      | Raise _ => keys_of chunks `prefix_of` data
      end).
Proof. apply ends_send_keys. Qed.

(** ** Filling a form *)

Lemma keys_of_app (chunks chunks' : list (WebElement * pystr)) :
  keys_of (chunks ++ chunks') = keys_of chunks ++ keys_of chunks'.
Proof. unfold keys_of. now rewrite map_app, concat_app. Qed.

Lemma ends_press_down element : forall times s,
  ends (press_down element times) s (fun r s' =>
    exists chunks,
      sent s s' chunks /\
      match r with
      | Return _ => keys_of chunks = concat (replicate times Keys_ARROW_DOWN)
      | Raise _ => True
      end).
Proof.
  induction times as [|times IH]; intros s; cbn [press_down].
  - apply ends_ret. exists []. split; [apply sent_refl | reflexivity].
  - apply ends_bind. eapply ends_weaken; [apply ends_send|].
    intros [[]|x] s1.
    + intros (e & [= <-] & Hkey). apply ends_bind.
      eapply ends_weaken; [apply ends_pause|]. intros [[]|x] s2 Hpause.
      * eapply ends_weaken; [apply IH|]. intros r s3 (chunks & Hrest & Hend).
        exists ((element, Keys_ARROW_DOWN) :: chunks).
        split; [exact (sent_trans _ _ _ _ _ (sent_then _ _ _ _ Hkey Hpause) Hrest)|].
        destruct r; [|exact I].
        change ((element, Keys_ARROW_DOWN) :: chunks)
          with ([(element, Keys_ARROW_DOWN)] ++ chunks).
        rewrite keys_of_app, Hend. reflexivity.
      * exists [(element, Keys_ARROW_DOWN)].
        split; [exact (sent_then _ _ _ _ Hkey Hpause) | exact I].
    + intros Hnone. exists []. now split.
Qed.

Lemma ends_fill_datum element datum s :
  ends (fill_datum element datum) s (fun r s' =>
    exists chunks,
      sent s s' chunks /\
      match r with
      | Return _ =>
          datum <> Text [] /\
          exists presses,
            presses_allowed datum presses /\
            Keys_TAB ++ keys_of chunks = item_keys datum presses
      | Raise _ => True
      end).
Proof.
  destruct datum as [[|ch rest]|presses]; cbn [fill_datum].
  - apply ends_raise. exists []. split; [apply sent_refl | exact I].
  - unfold item_keys, presses_allowed. case_bool_decide as Hskip.
    + eapply ends_weaken; [apply ends_pause|]. intros r s' Hpause.
      exists []. split; [exact Hpause|]. destruct r; [|exact I].
      split; [discriminate|]. now exists O.
    + apply ends_bind. eapply ends_weaken; [apply ends_attr|].
      intros r s1 [-> ->]. destruct (turbo_engaged (self (engine s))).
      * eapply ends_weaken; [apply ends_send|]. intros [[]|x] s'.
        -- intros (e & [= <-] & Hsent). exists [(element, ch :: rest)].
           split; [exact Hsent|]. split; [discriminate|]. exists O.
           split; [reflexivity|]. unfold keys_of. cbn. now rewrite app_nil_r.
        -- intros Hnone. exists []. now split.
      * eapply ends_weaken; [apply ends_type_keys|].
        intros r s' (chunks & done & Hsent & _ & Hmap & _ & Hend).
        exists chunks. split; [exact Hsent|]. destruct r; [|exact I]. subst done.
        split; [discriminate|]. exists O. split; [reflexivity|].
        now rewrite (keys_of_singletons chunks _ Hmap).
  - apply ends_bind.
    apply ends_weaken with (post := fun r s1 =>
      sent s s1 [] /\
      match r with
      | Return n => presses_allowed (DownArrow presses) (Z.to_nat n)
      | Raise _ => True
      end).
    { destruct presses as [n|low high].
      - apply ends_ret. split; [apply sent_refl | reflexivity].
      - eapply ends_weaken; [apply ends_randint|]. intros [n|x] s1 [Hdraw Hn].
        + split; [exact Hdraw|]. now exists n.
        + now split. }
    intros [n|x] s1 [Hdraw Hn].
    + eapply ends_weaken; [apply ends_press_down|].
      intros r s' (chunks & Hsent & Hend). exists chunks.
      split; [exact (sent_step _ _ _ _ Hdraw Hsent)|]. destruct r; [|exact I].
      split; [discriminate|]. exists (Z.to_nat n). split; [exact Hn|].
      unfold item_keys. now rewrite Hend.
    + exists []. now split.
Qed.

Lemma ends_fill_each : forall (items : list Datum) element s,
  ends (fill_each items element) s (fun r s' =>
    exists chunks,
      sent s s' chunks /\
      match r with
      | Return _ =>
          (Text [] ∉ items) /\
          exists counts,
            Forall2 presses_allowed items counts /\
            keys_of chunks = concat (zip_with item_keys items counts)
      | Raise _ => True
      end).
Proof.
  induction items as [|datum rest IH]; intros element s; cbn [fill_each].
  - apply ends_ret. exists []. split; [apply sent_refl|].
    split; [apply not_elem_of_nil|]. exists []. now split.
  - assert (Hstop : forall chunks s', sent s s' chunks ->
              exists chunks', sent s s' chunks' /\ True) by (intros; eauto).
    apply ends_bind. eapply ends_weaken; [apply ends_send|].
    intros [[]|x] s1; [|intros Hnone; eauto].
    intros (e & [= <-] & Htab).
    apply ends_bind. eapply ends_weaken; [apply ends_ask|].
    intros [active|x] s2 [_ ->]; [|eauto].
    apply ends_bind. eapply ends_weaken; [apply ends_pause|].
    intros [[]|x] s2 Hpause; pose proof (sent_then _ _ _ _ Htab Hpause) as Hthere;
      [|eauto].
    apply ends_bind. eapply ends_weaken; [apply ends_fill_datum|].
    intros [[]|x] s3 (typed_now & Htyped & Hitem);
      pose proof (sent_trans _ _ _ _ _ Hthere Htyped) as Hitem_done; [|eauto].
    destruct Hitem as (Hfull & presses & Hallowed & Hkeys).
    apply ends_bind. eapply ends_weaken; [apply ends_pause|].
    intros [[]|x] s4 Hfield; pose proof (sent_then _ _ _ _ Hitem_done Hfield) as Hnext;
      [|eauto].
    eapply ends_weaken; [apply IH|]. intros r s5 (later & Hlater & Hend).
    exists (([(element, Keys_TAB)] ++ typed_now) ++ later).
    split; [exact (sent_trans _ _ _ _ _ Hnext Hlater)|]. destruct r; [|exact I].
    destruct Hend as (Hrest & counts & Hcounts & Hkeys').
    split; [rewrite not_elem_of_cons; split; [congruence | exact Hrest]|].
    exists (presses :: counts). split; [now constructor|].
    rewrite !keys_of_app, Hkeys'. cbn [zip_with concat]. rewrite <- Hkeys.
    reflexivity.
Qed.

Lemma ends_fill_next (items : list Datum) start_element s :
  ends (fill_next items start_element) s (fun r s' =>
    exists chunks,
      sent s s' chunks /\
      match r with
      | Return _ =>
          (Text [] ∉ items) /\
          exists counts,
            Forall2 presses_allowed items counts /\
            keys_of chunks = concat (zip_with item_keys items counts)
      | Raise _ => True
      end).
Proof.
  unfold fill_next. apply ends_bind.
  apply ends_weaken with (post := fun _ s1 => s1 = s).
  { destruct start_element as [e|]; [now apply ends_ret|].
    eapply ends_weaken; [apply ends_ask|]. now intros r s1 [_ ->]. }
  intros [element|x] s1 ->; [apply ends_fill_each|].
  exists []. split; [apply sent_refl | exact I].
Qed.

(** X12: what [fill_next] types.  The call always ends, on the same tab
    and with the attributes of [self] kept but for the page.  When it
    returns, the keys sent are, item by item and in order, a TAB followed by
    the text of the item (nothing more for 'skip'), or by as many down
    arrows as the item says: the count itself (none when it is negative) or
    a number between its two bounds. *)
Theorem fill_next_types_items (items : list Datum) start_element s :
  ends (fill_next items start_element) s (fun r s' =>
    exists chunks,
      sent s s' chunks /\
      match r with
      | Return _ =>
          exists counts,
            Forall2 presses_allowed items counts /\
            keys_of chunks = concat (zip_with item_keys items counts)
      | Raise _ => True
      end).
Proof.
  eapply ends_weaken; [apply ends_fill_next|].
  intros r s' (chunks & Hsent & Hend). exists chunks. split; [exact Hsent|].
  destruct r; [|exact I]. apply Hend.
Qed.

(** X13: an empty string among the data of [fill_next] is not skipped:
    [datum[0]] raises [IndexError] on it, so a call with such data never
    returns normally: it always ends by raising. *)
Theorem fill_next_rejects_empty_string (items : list Datum) start_element s :
  Text [] ∈ items ->
  ends (fill_next items start_element) s (fun r _ => exists e, r = Raise e).
Proof.
  intros Hempty. eapply ends_weaken; [apply ends_fill_next|].
  intros [element|e] s' (chunks & _ & Hend); [|now exists e].
  now destruct Hend as [Hfull _].
Qed.

(** ** Tabs *)

Lemma list_getitem_inv {A} (l : list A) index :
  match list_getitem l index with
  | Return _ => - Z.of_nat (length l) <= index < Z.of_nat (length l)
  | Raise e =>
      e = IndexError /\
      (index < - Z.of_nat (length l) \/ Z.of_nat (length l) <= index)
  end.
Proof.
  unfold list_getitem. cbv zeta.
  destruct (Z.ltb_spec index 0) as [Hneg|Hpos].
  - destruct (Z.ltb_spec (index + Z.of_nat (length l)) 0) as [Hlow|Hin];
      [cbn [orb]; split; [reflexivity | lia]|].
    destruct (Z.leb_spec (Z.of_nat (length l)) (index + Z.of_nat (length l)));
      [lia|]. cbn [orb].
    destruct (l !! Z.to_nat (index + Z.of_nat (length l))) eqn:Hat; [lia|].
    apply lookup_ge_None in Hat. lia.
  - destruct (Z.ltb_spec index 0) as [?|_]; [lia|]. cbn [orb].
    destruct (Z.leb_spec (Z.of_nat (length l)) index) as [Hbig|Hin];
      [split; [reflexivity | lia]|].
    destruct (l !! Z.to_nat index) eqn:Hat; [lia|].
    apply lookup_ge_None in Hat. lia.
Qed.

Lemma ends_switch_to_tab index s :
  ends (switch_to_tab index) s (fun r s' =>
    typed s' = typed s /\ settings_kept s s' /\
    match r with
    | Return _ =>
        tab_index s' = index /\
        exists handles,
          window_handles (page s) = Return handles /\
          - Z.of_nat (length handles) <= index < Z.of_nat (length handles)
    | Raise e =>
        tab_index s' = tab_index s /\
        forall handles,
          window_handles (page s) = Return handles ->
          index < - Z.of_nat (length handles) \/ Z.of_nat (length handles) <= index ->
          e = IndexError /\ s' = s
    end).
Proof.
  unfold switch_to_tab. apply ends_bind. eapply ends_weaken; [apply ends_ask|].
  intros r s1 [-> ->]. destruct (window_handles (page s)) as [handles|x] eqn:Hhandles.
  - pose proof (list_getitem_inv handles index) as Hitem.
    destruct (list_getitem handles index) as [handle|x].
    + apply ends_bind. eapply ends_weaken; [apply ends_drive|].
      intros r s1 [-> ->].
      destruct (switch_to_window handle (page s)) as [[[]|x] b]; cbn [fst snd].
      * eexists _, _. split; [reflexivity|]. cbn.
        split; [reflexivity|]. split; [now exists b|]. split; [reflexivity|].
        now exists handles.
      * split; [reflexivity|]. split; [now exists b|]. split; [reflexivity|].
        intros handles' [= <-] Hout. lia.
    + apply ends_raise. destruct Hitem as [-> Hout].
      split; [reflexivity|]. split; [apply settings_kept_refl|]. now split.
  - split; [reflexivity|]. split; [apply settings_kept_refl|]. split; [reflexivity|].
    discriminate.
Qed.

(** X14: [switch_to_tab] indexes the list of window handles as Python
    does.  The call always ends.  It returns only for an index from
    -len(handles) to len(handles) - 1, negative ones counting from the end,
    and then [tab_index] is that index as given; when it raises, [tab_index]
    is as before, and for an index outside that range the exception is
    [IndexError] and nothing has changed.  In no case is a key sent or an
    attribute other than the page changed. *)
Theorem switch_to_tab_sets_index index s :
  ends (switch_to_tab index) s (fun r s' =>
    typed s' = typed s /\ settings_kept s s' /\
    match r with
    | Return _ =>
        tab_index s' = index /\
        exists handles,
          window_handles (page s) = Return handles /\
          - Z.of_nat (length handles) <= index < Z.of_nat (length handles)
    | Raise e =>
        tab_index s' = tab_index s /\
        forall handles,
          window_handles (page s) = Return handles ->
          index < - Z.of_nat (length handles) \/ Z.of_nat (length handles) <= index ->
          e = IndexError /\ s' = s
    end).
Proof. apply ends_switch_to_tab. Qed.

(** X15: where [close_tab] and [open_tab] leave [tab_index].  Both always
    end.  [close_tab] returns with [tab_index] 0; when it raises,
    [tab_index] is as before or the index of the tab that was to be closed.
    [open_tab] returns with [tab_index] one higher when it is to switch and
    unchanged when not, and leaves it unchanged when it raises. *)
Theorem close_tab_and_open_tab_index index url (switch : bool) s :
  ends (close_tab index) s (fun r s' =>
    match r with
    | Return _ => tab_index s' = 0
    | Raise _ => tab_index s' = tab_index s \/ tab_index s' = index
    end) /\
  ends (open_tab url switch) s (fun r s' =>
    match r with
    | Return _ => tab_index s' = if switch then tab_index s + 1 else tab_index s
    | Raise _ => tab_index s' = tab_index s
    end).
Proof.
  split.
  - unfold close_tab. apply ends_bind. eapply ends_weaken; [apply ends_switch_to_tab|].
    intros [[]|x] s1 (_ & _ & Hindex); [|left; apply Hindex].
    destruct Hindex as [Hindex _].
    apply ends_bind. eapply ends_weaken; [apply ends_drive|].
    intros r s2 [-> ->]. destruct (fst (close_window (page s1))) as [[]|x].
    + eapply ends_weaken; [apply ends_switch_to_tab|].
      intros [[]|x] s3 (_ & _ & Hlast); [apply Hlast|]. right.
      destruct Hlast as [-> _]. exact Hindex.
    + right. exact Hindex.
  - unfold open_tab, script. apply ends_bind. eapply ends_weaken; [apply ends_drive|].
    intros r s1 [-> ->]. destruct (fst (execute_script _ url (page s))) as [value|x];
      [|reflexivity].
    destruct switch; [|now apply ends_ret].
    apply ends_bind. eexists _, _. split; [reflexivity|]. cbv beta.
    eapply ends_weaken; [apply ends_switch_to_tab|].
    intros [[]|x] s2 (_ & _ & Hindex); [|apply Hindex].
    destruct Hindex as [-> _]. reflexivity.
Qed.

(** ** Frames and the captcha *)

Lemma ends_try_exceptS {A} (c : Act A) (h : exn -> Act A) s post :
  ends c s (fun r s1 =>
    match r with
    | Return _ => post r s1
    | Raise e => if is_Exception e then ends (h e) s1 post else post (Raise e) s1
    end) ->
  ends (try_exceptS c h) s post.
Proof.
  intros (r & s1 & Hrun & Hrest). unfold ends, try_exceptS. rewrite Hrun.
  destruct r as [a|e]; [now exists (Return a), s1|].
  destruct (is_Exception e); [exact Hrest | now exists (Raise e), s1].
Qed.

Lemma ends_try_finally {A} (c : Act A) (f : Act unit) s post :
  ends c s (fun r s1 =>
    ends f s1 (fun r' s2 =>
      match r' with
      | Return _ => post r s2
      | Raise e => post (Raise e) s2
      end)) ->
  ends (try_finally c f) s post.
Proof.
  intros (r & s1 & Hrun & r' & s2 & Hlast & Hpost). unfold ends, try_finally.
  rewrite Hrun, Hlast. destruct r' as [[]|e]; eauto.
Qed.

Lemma ends_switch_to_iframe locator s :
  ends (switch_to_iframe locator) s (fun _ s' => sent s s' []).
Proof.
  unfold switch_to_iframe. apply ends_bind. eapply ends_weaken; [apply ends_find|].
  intros [element|x] s1 ->; [|apply sent_refl].
  eapply ends_weaken; [apply ends_drive|]. intros r s' [_ ->]. apply sent_page.
Qed.

Lemma ends_to_parent_frame s :
  ends to_parent_frame s (fun r s' =>
    r = fst (switch_to_parent_frame (page s)) /\
    s' = set_page (snd (switch_to_parent_frame (page s))) s).
Proof. apply ends_drive. Qed.

Lemma ends_attribute_of element name s :
  ends (attribute_of element name) s (fun _ s' => s' = s).
Proof.
  destruct element as [e|]; [|now apply ends_raise].
  eapply ends_weaken; [apply ends_ask|]. now intros r s' [_ ->].
Qed.

(** The [try] block of [solve_recaptcha_v3]. *)
Lemma ends_recaptcha_attempt (outer_iframe_xpath : option string) inner_iframe_xpath s :
  ends
    (bindS
       match outer_iframe_xpath with
       | None | Some EmptyString => retS tt
       | Some outer =>
           bindS (switch_to_iframe outer) (fun _ =>
           bindS (lift (click recaptcha_anchor)) (fun _ => to_parent_frame))
       end (fun _ =>
     bindS (switch_to_iframe inner_iframe_xpath) (fun _ =>
     bindS (lift (click recaptcha_audio_button)) (fun _ =>
     bindS (lift (find recaptcha_download_link)) (fun link =>
     bindS (attribute_of link "href") (fun mp3_url =>
     bindS (fun s0 => Some (get_text_from_url mp3_url ".mp3", s0)) (fun text =>
     bindS (send_keys recaptcha_audio_response text true false) (fun _ =>
     bindS (lift (click recaptcha_verify_button)) (fun _ => retS tt)))))))))
    s (fun _ s' => exists chunks, sent s s' chunks).
Proof.
  assert (Hstop : forall s', sent s s' [] -> exists chunks, sent s s' chunks) by eauto.
  apply ends_bind.
  apply ends_weaken with (post := fun _ s1 => sent s s1 []).
  { destruct outer_iframe_xpath as [[|first more]|]; try apply ends_ret, sent_refl.
    apply ends_bind. eapply ends_weaken; [apply ends_switch_to_iframe|].
    intros [[]|x] s1 Hframe; [|exact Hframe].
    apply ends_bind. eapply ends_weaken; [apply ends_click|].
    intros [e|x] s2 Hclick; pose proof (sent_step _ _ _ _ Hframe Hclick) as Hin;
      [|exact Hin].
    eapply ends_weaken; [apply ends_to_parent_frame|]. intros r s3 [_ ->].
    exact (sent_then _ _ _ _ Hin (sent_page _ _)). }
  intros [[]|x] s1 Houter; [|eauto].
  apply ends_bind. eapply ends_weaken; [apply ends_switch_to_iframe|].
  intros [[]|x] s2 Hframe; pose proof (sent_step _ _ _ _ Houter Hframe) as Hinner;
    [|eauto].
  apply ends_bind. eapply ends_weaken; [apply ends_click|].
  intros [e|x] s3 Hclick; pose proof (sent_step _ _ _ _ Hinner Hclick) as Haudio;
    [|eauto].
  apply ends_bind. eapply ends_weaken; [apply ends_find|].
  intros [link|x] s4 ->; [|eauto].
  apply ends_bind. eapply ends_weaken; [apply ends_attribute_of|].
  intros [mp3_url|x] s4 ->; [|eauto].
  apply ends_bind. destruct (get_text_from_url mp3_url ".mp3") as [text|x].
  - exists (Return text), s3. split; [reflexivity|].
    apply ends_bind. eapply ends_weaken; [apply ends_send_keys|].
    intros r s4 (chunks & Htyped & _).
    pose proof (sent_step _ _ _ _ Haudio Htyped) as Hanswer.
    destruct r as [element|x]; [|eauto].
    apply ends_bind. eapply ends_weaken; [apply ends_click|].
    intros [e'|x] s5 Hverify; pose proof (sent_then _ _ _ _ Hanswer Hverify) as Hdone;
      [apply ends_ret|]; eauto.
  - exists (Raise x), s3. split; [reflexivity|]. eauto.
Qed.

(** X16: [solve_recaptcha_v3] and the locator method.  The call always
    ends, on the same tab.  When the [switch_to_parent_frame] of its
    [finally] block returns, the locator method is again the one the caller
    had set, the other attributes of [self] are kept but for the page, and
    the call has returned, or raised the exception 'Could not solve captcha',
    or let pass an exception that is no [Exception]; when that
    [switch_to_parent_frame] raises, its exception is what the call raises
    and the locator method is left at 'xpath'. *)
Theorem solve_recaptcha_v3_restores_locator_method outer_iframe_xpath inner_iframe_xpath s :
  ends (solve_recaptcha_v3 outer_iframe_xpath inner_iframe_xpath) s (fun r s' =>
    tab_index s' = tab_index s /\
    ((settings_kept s s' /\
      (r = Return tt \/ r = Raise captcha_failed \/
       exists e, r = Raise e /\ is_Exception e = false)) \/
     (exists e b b',
        r = Raise e /\ fst (switch_to_parent_frame b) = Raise e /\
        self (engine s') = set_locator "xpath" (set_browser b' (self (engine s)))))).
Proof.
  unfold solve_recaptcha_v3. apply ends_bind. eapply ends_weaken; [apply ends_attr|].
  intros r s0 [-> ->]. apply ends_bind. eexists _, _. split; [reflexivity|]. cbv beta.
  set (s1 := set_engine (set_self (set_locator "xpath" (self (engine s))) (engine s)) s).
  apply ends_try_finally.
  apply ends_weaken with (post := fun r s2 =>
    (exists chunks, sent s1 s2 chunks) /\
    (r = Return tt \/ r = Raise captcha_failed \/
     exists e, r = Raise e /\ is_Exception e = false)).
  { apply ends_try_exceptS. eapply ends_weaken; [apply ends_recaptcha_attempt|].
    intros [[]|e] s2 Hsent; [auto|].
    destruct (is_Exception e) eqn:Hkind.
    - apply ends_raise. auto.
    - split; [exact Hsent|]. right. right. now exists e. }
  intros r s2 [(chunks & _ & Htab & b & Hself) Hr].
  apply ends_bind. eapply ends_weaken; [apply ends_to_parent_frame|].
  intros [[]|e] s3 [Hup ->].
  - eexists _, _. split; [reflexivity|]. cbn beta iota.
    split; [exact Htab|]. left. split; [|exact Hr].
    exists (snd (switch_to_parent_frame (page s2))). cbn. rewrite Hself. cbn.
    now destruct (self (engine s)).
  - split; [exact Htab|]. right.
    exists e, (page s2), (snd (switch_to_parent_frame (page s2))).
    split; [reflexivity|]. split; [now rewrite Hup|]. cbn. now rewrite Hself.
Qed.

(** ** The time typing takes *)

Lemma ends_both {A} (c : Act A) s (post post' : outcome A -> Session -> Prop) :
  ends c s post -> ends c s post' -> ends c s (fun r s' => post r s' /\ post' r s').
Proof.
  intros (r & s' & Hrun & Hpost) (r' & s'' & Hrun' & Hpost').
  rewrite Hrun in Hrun'. injection Hrun' as <- <-. now exists r, s'.
Qed.

Lemma waited_refl s : waited s s 0.
Proof. unfold waited. lra. Qed.

Lemma waited_same s s' : clock (engine s') = clock (engine s) -> waited s s' 0.
Proof. unfold waited. intros ->. lra. Qed.

Lemma waited_trans s1 s2 s3 (a b : Q) :
  waited s1 s2 a -> waited s2 s3 b -> waited s1 s3 (a + b).
Proof. unfold waited. intros Hfirst Hthen. lra. Qed.

Lemma waited_at_least s s' (a a' : Q) :
  waited s s' a -> (a' <= a)%Q -> waited s s' a'.
Proof. unfold waited. intros Hwaited Hless. lra. Qed.

Lemma timed_pause (wait : User -> range) s :
  ordered (wait (self (engine s))) ->
  ends (pause wait) s (fun r s' =>
    r = Return tt /\ sent s s' [] /\ waited s s' (fst (wait (self (engine s))))).
Proof.
  intros [Hlow Horder].
  apply ends_weaken with (post := fun r s' =>
    sent s s' [] /\
    (r = Return tt /\ waited s s' (fst (wait (self (engine s))))));
    [|tauto].
  apply ends_both; [apply ends_pause|].
  unfold ends, pause, lift, bind, attr. cbv beta iota.
  destruct (wait (self (engine s))) as [a b]. cbn [fst snd] in *.
  rewrite chill_run. cbv zeta.
  destruct (unit_draw_bounds (rng (engine s))) as [Hu0 Hu1].
  assert (Hd : Qgt_bool 0 (a + (b - a) * unit_draw (rng (engine s))) = false)
    by (apply Qgt_bool_false; nra).
  rewrite Hd. eexists _, _. split; [reflexivity|]. split; [reflexivity|].
  unfold waited. cbn. nra.
Qed.

Lemma timed_send element keys s :
  ends (send element keys) s (fun r s' =>
    clock (engine s') = clock (engine s) /\
    match r with
    | Return _ => exists e, element = Some e /\ sent s s' [(e, keys)]
    | Raise _ => sent s s' []
    end).
Proof.
  apply ends_weaken with (post := fun r s' =>
    match r with
    | Return _ => exists e, element = Some e /\ sent s s' [(e, keys)]
    | Raise _ => sent s s' []
    end /\ clock (engine s') = clock (engine s)); [|tauto].
  apply ends_both; [apply ends_send|].
  destruct element as [e|]; [|now apply ends_raise].
  unfold ends, send. destruct (element_send_keys e keys (page s)) as [[[]|x] b];
    eexists _, _; split; reflexivity.
Qed.

Lemma timed_click locator s :
  ordered (after_click_wait (self (engine s))) ->
  ends (lift (click locator)) s (fun r s' =>
    sent s s' [] /\
    match r with
    | Return _ => waited s s' (fst (after_click_wait (self (engine s))))
    | Raise _ => True
    end).
Proof.
  intros [Hlow Horder]. apply ends_both; [apply ends_click|].
  unfold ends, lift, click. unfold bind at 1.
  destruct (find locator (engine s)) as [[[[element|]|e] m1]|] eqn:Hfind.
  - apply find_pure in Hfind. subst m1. unfold bind at 1, driver_click.
    destruct (element_click element (browser (self (engine s)))) as [[[]|e] b].
    + unfold bind at 1, attr. cbn [self]. unfold bind.
      change (after_click_wait (set_browser b (self (engine s))))
        with (after_click_wait (self (engine s))).
      destruct (after_click_wait (self (engine s))) as [lo hi]. cbn [fst snd] in *.
      rewrite chill_run. cbv zeta. cbn [rng clock].
      destruct (unit_draw_bounds (rng (engine s))) as [Hu0 Hu1].
      assert (Hd : Qgt_bool 0 (lo + (hi - lo) * unit_draw (rng (engine s))) = false)
        by (apply Qgt_bool_false; nra).
      rewrite Hd. eexists _, _. split; [reflexivity|]. unfold waited. cbn. nra.
    + eexists _, _. split; [reflexivity | exact I].
  - apply find_pure in Hfind. subst m1. eexists _, _. split; [reflexivity | exact I].
  - apply find_pure in Hfind. subst m1. eexists _, _. split; [reflexivity | exact I].
  - destruct (click_ends locator (engine s)) as (r & m' & Hrun & _).
    unfold click in Hrun. unfold bind at 1 in Hrun. rewrite Hfind in Hrun. discriminate.
Qed.

Lemma timed_type_keys element (a b : Q) : forall data s,
  after_key_wait (self (engine s)) = (a, b) -> ordered (a, b) ->
  ends (type_keys element data) s (fun r s' =>
    match r with
    | Return _ => waited s s' (Qnat (length data) * a)
    | Raise _ => True
    end).
Proof.
  induction data as [|ch rest IH]; intros s Hwait Horder; cbn [type_keys].
  - apply ends_ret. cbn [length]. change (Qnat 0) with 0%Q.
    eapply waited_at_least; [apply waited_refl|]. lra.
  - apply ends_bind. eapply ends_weaken; [apply timed_send|].
    intros [[]|x] s1 [Hclock Hsent]; [|exact I].
    destruct Hsent as (e & -> & Hkey).
    assert (Hwait1 : after_key_wait (self (engine s1)) = (a, b)).
    { destruct Hkey as (_ & _ & Hkept).
      destruct (settings_kept_fields _ _ Hkept) as ([= -> _ _ _] & _). exact Hwait. }
    apply ends_bind. eapply ends_weaken;
      [apply (timed_pause after_key_wait); now rewrite Hwait1|].
    intros r s2 (-> & Hpause & Hwaited). rewrite Hwait1 in Hwaited.
    cbn [fst snd] in Hwaited.
    assert (Hwait2 : after_key_wait (self (engine s2)) = (a, b)).
    { destruct Hpause as (_ & _ & Hkept).
      destruct (settings_kept_fields _ _ Hkept) as ([= -> _ _ _] & _). exact Hwait1. }
    eapply ends_weaken; [apply (IH s2 Hwait2 Horder)|].
    intros [[]|x] s3 Hrest; [|exact I].
    pose proof (waited_trans _ _ _ _ _ (waited_same _ _ Hclock)
                  (waited_trans _ _ _ _ _ Hwaited Hrest)) as Hall.
    cbn [length]. pose proof (Qnat_S (length rest)) as Hsucc.
    unfold waited in *. rewrite Hsucc. lra.
Qed.

Lemma kept_waits s s' chunks :
  sent s s' chunks ->
  after_key_wait (self (engine s')) = after_key_wait (self (engine s)) /\
  after_field_wait (self (engine s')) = after_field_wait (self (engine s)) /\
  after_click_wait (self (engine s')) = after_click_wait (self (engine s)) /\
  one_key_at_a_time (self (engine s')) = one_key_at_a_time (self (engine s)).
Proof. intros (_ & _ & b & ->). repeat split. Qed.

(** X17: the least time [send_keys] takes.  With waiting ranges whose
    bounds are not negative and in order, a call that returns has moved the
    clock on by at least the lower bounds of the waits it makes, added up:
    that of [after_click_wait] for the click and again for the clearing,
    where asked for, that of [after_key_wait] for every character when
    [one_key_at_a_time] is set, and that of [after_field_wait] once.  Under
    the human profile this is 0.25 seconds for the click and for the
    clearing, 0.1 seconds for each character and 1 second for the field. *)
Theorem send_keys_waits_at_least locator data (click_first clear_first : bool) s :
  ordered (after_key_wait (self (engine s))) ->
  ordered (after_field_wait (self (engine s))) ->
  ordered (after_click_wait (self (engine s))) ->
  ends (send_keys locator data click_first clear_first) s (fun r s' =>
    match r with
    | Return _ =>
        waited s s'
          (click_waits click_first clear_first * fst (after_click_wait (self (engine s)))
           + (if one_key_at_a_time (self (engine s)) then Qnat (length data) else 0)
             * fst (after_key_wait (self (engine s)))
           + fst (after_field_wait (self (engine s))))
    | Raise _ => True
    end).
Proof.
  destruct (after_key_wait (self (engine s))) as [ka kb] eqn:Hkey.
  destruct (after_field_wait (self (engine s))) as [fa fb] eqn:Hfield.
  destruct (after_click_wait (self (engine s))) as [ca cb] eqn:Hclick.
  intros Hk Hf Hc. cbn [fst snd]. unfold send_keys.
  apply ends_bind.
  apply ends_weaken with (post := fun r s1 =>
    sent s s1 [] /\
    match r with
    | Return _ => waited s s1 ((if click_first then 1 else 0) * ca)
    | Raise _ => True
    end).
  { destruct click_first.
    - apply ends_bind. eapply ends_weaken;
        [apply timed_click; now rewrite Hclick|].
      rewrite Hclick. cbn [fst snd].
      intros [e|x] s1 [Hsent Hwaited]; [|now split]. apply ends_ret.
      split; [exact Hsent|]. eapply waited_at_least; [exact Hwaited|]. lra.
    - eapply ends_weaken; [apply ends_find|]. intros r s1 ->.
      split; [apply sent_refl|]. destruct r; [|exact I].
      eapply waited_at_least; [apply waited_refl|]. lra. }
  intros [element|x] s1 [Hlocate Hfirst]; [|exact I].
  destruct (kept_waits _ _ _ Hlocate) as (Hkey1 & Hfield1 & Hclick1 & Hone1).
  apply ends_bind.
  apply ends_weaken with (post := fun r s2 =>
    sent s1 s2 [] /\
    match r with
    | Return _ => waited s1 s2 ((if clear_first then 1 else 0) * ca)
    | Raise _ => True
    end).
  { destruct clear_first.
    - apply ends_bind.
      destruct element as [e|]; [|apply ends_raise; split; [apply sent_refl | exact I]].
      eapply ends_weaken; [apply ends_drive|]. intros r s2 [-> ->].
      destruct (fst (element_clear e (page s1))) as [[]|x];
        [|split; [apply sent_page | exact I]].
      set (s2 := set_page (snd (element_clear e (page s1))) s1).
      assert (Hwait : after_click_wait (self (engine s2)) = (ca, cb))
        by (cbn; now rewrite Hclick1, Hclick).
      eapply ends_weaken;
        [apply (timed_pause after_click_wait); now rewrite Hwait|].
      rewrite Hwait. cbn [fst snd].
      intros r s3 (_ & Hpause & Hwaited).
      split; [exact (sent_step _ _ _ _ (sent_page _ _) Hpause)|].
      destruct r; [|exact I]. unfold waited in *. cbn in Hwaited. lra.
    - apply ends_ret. split; [apply sent_refl|].
      eapply waited_at_least; [apply waited_refl|]. lra. }
  intros [[]|x] s2 [Hclear Hsecond]; [|exact I].
  pose proof (sent_step _ _ _ _ Hlocate Hclear) as Hready.
  destruct (kept_waits _ _ _ Hready) as (Hkey2 & Hfield2 & Hclick2 & Hone2).
  pose proof (waited_trans _ _ _ _ _ Hfirst Hsecond) as Hclicks.
  apply ends_bind. eapply ends_weaken; [apply ends_attr|].
  intros r s3 [-> ->]. rewrite Hone2.
  apply ends_bind.
  apply ends_weaken with (post := fun r s3 =>
    (exists chunks, sent s2 s3 chunks) /\
    match r with
    | Return _ =>
        waited s2 s3
          ((if one_key_at_a_time (self (engine s)) then Qnat (length data) else 0) * ka)
    | Raise _ => True
    end).
  { destruct (one_key_at_a_time (self (engine s))).
    - apply ends_both.
      + eapply ends_weaken; [apply ends_type_keys|].
        intros r s3 (chunks & _ & Hsent & _). now exists chunks.
      + apply (timed_type_keys element ka kb); [now rewrite Hkey2, Hkey | exact Hk].
    - eapply ends_weaken; [apply timed_send|].
      intros [[]|x] s3 [Hclock Hsent].
      + destruct Hsent as (e & _ & Hsent). split; [eexists; exact Hsent|].
        eapply waited_at_least; [apply waited_same, Hclock|]. lra.
      + split; [eexists; exact Hsent | exact I]. }
  intros [[]|x] s3 [[chunks Htyped] Hthird]; [|exact I].
  destruct (kept_waits _ _ _ (sent_step _ _ _ _ Hready Htyped))
    as (Hkey3 & Hfield3 & Hclick3 & Hone3).
  apply ends_bind. eapply ends_weaken;
    [apply (timed_pause after_field_wait); now rewrite Hfield3, Hfield|].
  rewrite Hfield3, Hfield. cbn [fst snd].
  intros r s4 (-> & _ & Hlast). apply ends_ret.
  pose proof (waited_trans _ _ _ _ _ Hclicks
                (waited_trans _ _ _ _ _ Hthird Hlast)) as Hall.
  eapply waited_at_least; [exact Hall|]. unfold click_waits. lra.
Qed.


End Typing.

(** * Runs of the further properties *)

Example send_keys_types_two_keys :
  let s := at_form false (counting 0) in
  exists s',
    send_keys "first" (literal "ab") true false s = Some (Return (Some "first"%string), s') /\
    typed s' = [("first"%string, [97%N]); ("first"%string, [98%N])] /\
    clicked (engine s') = ["first"%string].
Proof. cbv zeta. eexists. split; [vm_compute; reflexivity|]. split; reflexivity. Qed.

Example fill_next_tabs_through_the_form :
  let s := at_form true (counting 0) in
  exists s',
    fill_next [Text (literal "ab"); Text (literal "skip"); DownArrow (Times 2)] None s
    = Some (Return "//body"%string, s') /\
    typed s' = [("first"%string, Keys_TAB); ("last"%string, literal "ab");
                ("last"%string, Keys_TAB); ("email"%string, Keys_TAB);
                ("//body"%string, Keys_ARROW_DOWN); ("//body"%string, Keys_ARROW_DOWN)].
Proof. cbv zeta. eexists. split; [vm_compute; reflexivity | reflexivity]. Qed.

Example switch_to_tab_counts_from_the_end :
  let s := at_form true (counting 0) in
  exists s',
    switch_to_tab (-1) s = Some (Return tt, s') /\
    tab_index s' = -1 /\ current (page s') = 1%nat /\
    switch_to_tab 2 s = Some (Raise IndexError, s).
Proof. cbv zeta. eexists. repeat split. Qed.

Lemma wait_until_passes_bound_witness :
  let m := boot [] (counting 0) in
  (0 <= 0.2)%Q /\ (0 < 0.05)%Q /\
  (forall m0, (clock m0 <= clock (snd (answers 0 false m0)))%Q) /\
  (Z.to_nat (Qfloor (0.2 / 0.05)) + 2 = 6)%nat /\
  wait_until 5 (answers 0 false) 0.2 0.05 m = None /\
  exists m', forall fuel, (6 <= fuel)%nat ->
    wait_until fuel (answers 0 false) 0.2 0.05 m = Some (Raise TimeoutError, m').
Proof.
  cbv zeta.
  assert (Hwait : (0 <= 0.2)%Q) by discriminate.
  assert (Hpos : (0 < 0.05)%Q) by reflexivity.
  assert (Hforward : forall m0 : @Machine page_driver,
            (clock m0 <= clock (snd (answers 0 false m0)))%Q)
    by (intros m0; cbn; lra).
  split; [exact Hwait|]. split; [exact Hpos|]. split; [exact Hforward|].
  split; [reflexivity|]. split; [reflexivity|].
  destruct (wait_until_passes_bound (answers 0 false) 0.2 0.05 (boot [] (counting 0))
              Hwait Hpos Hforward) as (r & m' & _ & Hrun).
  exists m'. intros fuel Hfuel.
  assert (Hr : r = Raise TimeoutError).
  { pose proof (Hrun 6%nat ltac:(reflexivity)) as Hsix.
    assert (Hfst : option_map fst (wait_until 6 (answers 0 false) 0.2 0.05
                                     (boot [] (counting 0)))
                   = Some (Raise TimeoutError)) by reflexivity.
    rewrite Hsix in Hfst. now injection Hfst. }
  rewrite <- Hr. apply Hrun. exact Hfuel.
Defined.

Lemma wait_until_only_sleeps_witness :
  let m := boot [] (counting 0) in
  let m' := snd (answers (1 # 2) false (at_pass (answers (1 # 2) false) 0 1 m)) in
  (forall m0, self (snd (answers (1 # 2) false m0)) = self m0 /\
              rng (snd (answers (1 # 2) false m0)) = rng m0 /\
              clicked (snd (answers (1 # 2) false m0)) = clicked m0) /\
  wait_until 2 (answers (1 # 2) false) (3 # 4) 0 m = Some (Raise TimeoutError, m') /\
  self m' = self m /\ rng m' = rng m /\ clicked m' = clicked m.
Proof.
  cbv zeta.
  assert (Hcond : forall m0, self (snd (answers (1 # 2) false m0)) = self m0 /\
                             rng (snd (answers (1 # 2) false m0)) = rng m0 /\
                             clicked (snd (answers (1 # 2) false m0)) = clicked m0)
    by (intros m0; repeat split).
  split; [exact Hcond|]. split; [reflexivity|].
  exact (wait_until_only_sleeps (answers (1 # 2) false) (3 # 4) 0 2
           (boot [] (counting 0)) (Raise TimeoutError) _ Hcond eq_refl).
Defined.

Lemma get_click_list_only_draws_witness :
  let m := boot [] (counting 0) in
  match get_click_list 10 5 3 2 m with
  | Some (Return l, m') => length l = 5%nat /\ only_drew m m'
  | _ => False
  end.
Proof.
  cbv zeta.
  destruct (get_click_list 10 5 3 2 (boot [] (counting 0))) as [[[l|e] m']|] eqn:Hrun.
  - split; [vm_compute in Hrun; now injection Hrun as <- _|].
    exact (get_click_list_only_draws 10 5 3 2 _ _ _ Hrun).
  - vm_compute in Hrun. discriminate.
  - vm_compute in Hrun. discriminate.
Defined.

Lemma click_unknown_method_witness :
  let m := set_self (set_locator "link text" (fresh_user ["//a"%string]))
             (boot ["//a"%string] (counting 0)) in
  strategy (locator_method (self m)) = None /\
  find "//a" m = Some (Return None, m) /\
  click "//a" m = Some (Raise AttributeError, m).
Proof.
  cbv zeta. split; [reflexivity|].
  exact (click_unknown_method "//a"
           (set_self (set_locator "link text" (fresh_user ["//a"%string]))
              (boot ["//a"%string] (counting 0))) eq_refl).
Defined.

Lemma click_failure_skips_wait_witness :
  let m := boot ["//a"%string] (counting 0) in
  strategy (locator_method (self m)) = Some XPATH /\
  find_element XPATH "//missing" (browser (self m))
  = Raise (OtherError "NoSuchElementException") /\
  click "//missing" m = Some (Raise (OtherError "NoSuchElementException"), m).
Proof.
  cbv zeta. split; [reflexivity|]. split; [reflexivity|].
  exact (proj1 (click_failure_skips_wait XPATH "//missing"
                  (boot ["//a"%string] (counting 0)) eq_refl) _ eq_refl).
Defined.

Lemma click_elements_clicks_at_most_max_witness :
  let locators := ["//a"; "//b"; "//c"; "//d"]%string in
  let m := boot locators (counting 5) in
  match click_elements locators (Some 3) 1 m with
  | Some (Return _, m') =>
      exists added,
        clicked m' = clicked m ++ added /\
        Z.of_nat (length added) <= Z.max 0 (effective_max locators (Some 3)) /\
        (length added <= length locators)%nat
  | _ => False
  end.
Proof.
  cbv zeta.
  destruct (click_elements ["//a"; "//b"; "//c"; "//d"]%string (Some 3) 1
              (boot ["//a"; "//b"; "//c"; "//d"]%string (counting 5)))
    as [[[e|x] m']|] eqn:Hrun.
  - exact (click_elements_clicks_at_most_max _ _ _ _ _ _ Hrun).
  - vm_compute in Hrun. discriminate.
  - vm_compute in Hrun. discriminate.
Defined.

Lemma chill_accepts_either_order_witness :
  let m := boot [] (counting 5) in
  (0 <= 3)%Q /\ (0 <= 1)%Q /\
  exists d : Q,
    chill (3, 1)%Q m = Some (Return tt, set_clock (clock m + d)%Q (after_draw m)) /\
    (1 <= d)%Q /\ (d <= 3)%Q.
Proof.
  cbv zeta.
  assert (H3 : (0 <= 3)%Q) by discriminate.
  assert (H1 : (0 <= 1)%Q) by discriminate.
  assert (H13 : (1 <= 3)%Q) by discriminate.
  split; [exact H3|]. split; [exact H1|].
  destruct (chill_accepts_either_order 3 1 (boot [] (counting 5)) H3 H1)
    as (d & Hrun & _ & Hdown).
  exists d. split; [exact Hrun | exact (Hdown H13)].
Defined.

Lemma click_waits_at_least_witness :
  let u := turbo false (fresh_user ["//a"%string]) in
  let m := set_self u (boot ["//a"%string] (counting 5)) in
  ordered (after_click_wait (self m)) /\
  strategy (locator_method (self m)) = Some XPATH /\
  find_element XPATH "//a" (browser (self m)) = Return "//a"%string /\
  element_click "//a"%string (browser (self m)) = (Return tt, ["//a"%string]) /\
  exists m',
    click "//a" m = Some (Return "//a"%string, m') /\
    clicked m' = clicked m ++ ["//a"%string] /\
    self m' = set_browser ["//a"%string] (self m) /\
    (clock m + 0.25 <= clock m')%Q.
Proof.
  cbv zeta.
  assert (Hwait : ordered (after_click_wait
                    (self (set_self (turbo false (fresh_user ["//a"%string]))
                             (boot ["//a"%string] (counting 5))))))
    by (split; discriminate).
  split; [exact Hwait|]. repeat (split; [reflexivity|]).
  exact (click_waits_at_least XPATH "//a" "//a"%string ["//a"%string]
           (set_self (turbo false (fresh_user ["//a"%string]))
              (boot ["//a"%string] (counting 5)))
           Hwait eq_refl eq_refl eq_refl).
Defined.

Lemma fill_next_rejects_empty_string_witness :
  let items := [Text (literal "ab"); Text []; Text (literal "cd")] in
  let s := at_form false (counting 0) in
  Text [] ∈ items /\
  ends (fill_next items None) s (fun r _ => exists e, r = Raise e) /\
  exists s', fill_next items None s = Some (Raise IndexError, s').
Proof.
  cbv zeta.
  assert (Hempty : Text [] ∈ [Text (literal "ab"); Text []; Text (literal "cd")])
    by (apply elem_of_cons; right; apply elem_of_cons; now left).
  split; [exact Hempty|].
  split; [exact (fill_next_rejects_empty_string _ None (at_form false (counting 0)) Hempty)|].
  eexists. vm_compute. reflexivity.
Defined.

Lemma send_keys_waits_at_least_witness :
  let s := at_form false (counting 0) in
  ordered (after_key_wait (self (engine s))) /\
  ordered (after_field_wait (self (engine s))) /\
  ordered (after_click_wait (self (engine s))) /\
  exists s',
    send_keys "first" (literal "ab") true false s = Some (Return (Some "first"%string), s') /\
    waited s s' (0.25 * 1 + 0.1 * 2 + 1).
Proof.
  cbv zeta.
  assert (Hkey : ordered (after_key_wait (self (engine (at_form false (counting 0))))))
    by (split; discriminate).
  assert (Hfield : ordered (after_field_wait (self (engine (at_form false (counting 0))))))
    by (split; discriminate).
  assert (Hclick : ordered (after_click_wait (self (engine (at_form false (counting 0))))))
    by (split; discriminate).
  split; [exact Hkey|]. split; [exact Hfield|]. split; [exact Hclick|].
  destruct (send_keys_waits_at_least "first" (literal "ab") true false
              (at_form false (counting 0)) Hkey Hfield Hclick)
    as (r & s' & Hrun & Hwaited).
  exists s'.
  assert (Hr : r = Return (Some "first"%string)).
  { assert (Hfst : option_map fst (send_keys "first" (literal "ab") true false
                                      (at_form false (counting 0)))
                   = Some (Return (Some "first"%string))) by (vm_compute; reflexivity).
    rewrite Hrun in Hfst. now injection Hfst. }
  subst r. split; [exact Hrun|].
  unfold waited in *. unfold click_waits in Hwaited.
  change (Qnat (length (literal "ab"))) with 2%Q in Hwaited.
  cbn [at_form engine self turbo after_click_wait after_key_wait after_field_wait
       one_key_at_a_time clock fst snd] in Hwaited.
  change (clock (engine (at_form false (counting 0)))) with 0%Q.
  lra.
Defined.
